(** * reference-manager: BibTeX import, key de-duplication and citation formatting

    A shallow embedding of [reference_manager/models.py],
    [reference_manager/bibtex_parser.py], [reference_manager/citation.py],
    [reference_manager/project_manager.py] and the attach operation of
    [reference_manager/file_manager.py].

    Python objects that the code mutates in place ([Reference] instances
    renamed by the duplicate resolver, or given a file by the file manager)
    live in an explicit store and are passed around by address, so that the
    list handed to the resolver, the list it returns and the project
    dictionary all alias the same objects, as they do in the source. *)

From Stdlib Require Import Ascii String DecimalString.
From Stdlib Require DecimalNat.
From stdpp Require Import base option list strings.

Local Open Scope string_scope.
Local Open Scope list_scope.
Local Open Scope nat_scope.

(** ** Python [str] operations

    A Python string is modelled as a [string] whose characters are the code
    points below 256; the character classes follow the Unicode database on
    that range, which is what [str.isspace], [str.isalnum] and [str.lower]
    consult. *)
Module PyStr.

Definition between (lo hi n : nat) : bool := (lo <=? n) && (n <=? hi).

(** [c.isspace()] *)
Definition isspace (c : ascii) : bool :=
  let n := nat_of_ascii c in
  between 9 13 n || between 28 32 n || (n =? 133) || (n =? 160).

(** [c.isalnum()] *)
Definition isalnum (c : ascii) : bool :=
  let n := nat_of_ascii c in
  between 48 57 n || between 65 90 n || between 97 122 n
  || (n =? 170) || (n =? 178) || (n =? 179) || (n =? 181) || (n =? 185)
  || (n =? 186) || between 188 190 n || between 192 214 n
  || between 216 246 n || between 248 255 n.

Definition lower_char (c : ascii) : ascii :=
  let n := nat_of_ascii c in
  if between 65 90 n || between 192 214 n || between 216 222 n
  then ascii_of_nat (n + 32) else c.

(** [s.lower()] *)
Fixpoint lower (s : string) : string :=
  match s with
  | EmptyString => EmptyString
  | String c s' => String (lower_char c) (lower s')
  end.

(** [str(i)] for a non-negative integer, as an f-string renders it. *)
Definition of_nat (i : nat) : string :=
  NilEmpty.string_of_uint (Nat.to_uint i).

(** [sep.join(parts)] *)
Fixpoint join (sep : string) (parts : list string) : string :=
  match parts with
  | [] => ""
  | [p] => p
  | p :: ps => p +:+ sep +:+ join sep ps
  end.

(** [s.startswith(p)] *)
Fixpoint startswith (p s : string) : bool :=
  match p, s with
  | EmptyString, _ => true
  | String a p', String b s' => Ascii.eqb a b && startswith p' s'
  | String _ _, EmptyString => false
  end.

(** [sub in s] *)
Fixpoint contains (sub s : string) : bool :=
  startswith sub s ||
  match s with
  | EmptyString => false
  | String _ s' => contains sub s'
  end.

(** The scan behind [s.split(sep)] for a non-empty [sep]: [cur] is the
    piece being accumulated and [skip] counts the characters of a
    separator that was recognised and is still to be passed over. *)
Fixpoint split_go (sep : string) (skip : nat) (cur s : string) : list string :=
  match s with
  | EmptyString => [cur]
  | String c s' =>
      match skip with
      | S n => split_go sep n cur s'
      | O =>
          if startswith sep s
          then cur :: split_go sep (String.length sep - 1) "" s'
          else split_go sep 0 (cur +:+ String c "") s'
      end
  end.

(** [s.split(sep)], left to right, separators not overlapping. *)
Definition split (sep s : string) : list string := split_go sep 0 "" s.

Fixpoint lstrip (s : string) : string :=
  match s with
  | EmptyString => EmptyString
  | String c s' => if isspace c then lstrip s' else s
  end.

Fixpoint rstrip (s : string) : string :=
  match s with
  | EmptyString => EmptyString
  | String c s' =>
      match rstrip s' with
      | EmptyString => if isspace c then EmptyString else String c EmptyString
      | t => String c t
      end
  end.

(** [s.strip()] *)
Definition strip (s : string) : string := rstrip (lstrip s).

(** The scan behind [s.split()] (no argument): runs of white space
    separate the words and never produce an empty word. *)
Fixpoint words_go (cur s : string) : list string :=
  match s with
  | EmptyString => if String.eqb cur "" then [] else [cur]
  | String c s' =>
      if isspace c
      then (if String.eqb cur "" then words_go "" s' else cur :: words_go "" s')
      else words_go (cur +:+ String c "") s'
  end.

(** [s.split()] *)
Definition words (s : string) : list string := words_go "" s.

(** ["".join(c for c in s if keep(c))] *)
Fixpoint filter_chars (keep : ascii → bool) (s : string) : string :=
  match s with
  | EmptyString => EmptyString
  | String c s' =>
      if keep c then String c (filter_chars keep s') else filter_chars keep s'
  end.

(** [l[i]] on a list of strings. Every use below indexes the result of
    [split], which is never empty, or a list whose length was just
    tested, so the fall-back value is never observed. *)
Definition item (i : nat) (l : list string) : string := nth i l "".

End PyStr.

(** ** Python [dict] with string keys

    Insertion ordered: assigning to a present key keeps its position,
    assigning to a new key appends. *)
Section dict.
Context {V : Type}.

Definition dict : Type := list (string * V).

Fixpoint dict_get (k : string) (d : dict) : option V :=
  match d with
  | [] => None
  | (k', v) :: d' => if String.eqb k k' then Some v else dict_get k d'
  end.

(** [k in d] *)
Definition dict_mem (k : string) (d : dict) : bool :=
  match dict_get k d with Some _ => true | None => false end.

(** [d.get(k, dflt)] *)
Definition dict_get_default (k : string) (dflt : V) (d : dict) : V :=
  default dflt (dict_get k d).

(** [d[k] = v] *)
Fixpoint dict_set (k : string) (v : V) (d : dict) : dict :=
  match d with
  | [] => [(k, v)]
  | (k', v') :: d' =>
      if String.eqb k k' then (k, v) :: d' else (k', v') :: dict_set k v d'
  end.

(** [d.pop(k)]: the value and the remaining dictionary, or [None] for
    the [KeyError]. *)
Fixpoint dict_pop (k : string) (d : dict) : option (V * dict) :=
  match d with
  | [] => None
  | (k', v) :: d' =>
      if String.eqb k k' then Some (v, d')
      else '(x, r) ← dict_pop k d'; Some (x, (k', v) :: r)
  end.

Definition dict_keys (d : dict) : list string := d.*1.
Definition dict_values (d : dict) : list V := d.*2.

(** What Python guarantees of every dictionary. *)
Definition dict_wf (d : dict) : Prop := NoDup (dict_keys d).
End dict.
Global Arguments dict : clear implicits.

(** ** models.py *)

Record Reference : Type := mkReference {
  key : string;
  entry_type : string;
  fields : dict string;
  original_key : option string;
  file_path : option string
}.

Definition last_name_of (author : string) : string :=
  PyStr.strip
    (PyStr.item 0 (PyStr.split "," (PyStr.item 0 (PyStr.split "and" author)))).

(** [Reference.get_standardized_filename] *)
Definition get_standardized_filename (r : Reference) : string :=
  let author := dict_get_default "author" "Unknown" (fields r) in
  let year := dict_get_default "year" "XXXX" (fields r) in
  let title := dict_get_default "title" "Untitled" (fields r) in
  let last_name := last_name_of author in
  let clean_title :=
    PyStr.filter_chars (λ c, PyStr.isalnum c || PyStr.isspace c) title in
  let title_words := take 3 (PyStr.words clean_title) in
  let short_title := PyStr.join "_" title_words in
  last_name +:+ "_" +:+ year +:+ "_" +:+ short_title +:+ ".pdf".

(** ** citation.py *)
Module CitationFormatter.

Definition format_citation (reference : Reference) (style : string) : string :=
  if String.eqb style "cite" then "\cite{" +:+ key reference +:+ "}"
  else if String.eqb style "citep" then "\citep{" +:+ key reference +:+ "}"
  else if String.eqb style "citet" then "\citet{" +:+ key reference +:+ "}"
  else if String.eqb style "footcite" then "\footcite{" +:+ key reference +:+ "}"
  else if String.eqb style "textcite" then "\textcite{" +:+ key reference +:+ "}"
  else "\cite{" +:+ key reference +:+ "}".

Definition format_multiple_citations
    (references : list Reference) (style : string) : string :=
  let keys := key <$> references in
  let keys_str := PyStr.join "," keys in
  if String.eqb style "cite" then "\cite{" +:+ keys_str +:+ "}"
  else if String.eqb style "citep" then "\citep{" +:+ keys_str +:+ "}"
  else if String.eqb style "citet" then "\citet{" +:+ keys_str +:+ "}"
  else if String.eqb style "footcite" then "\footcite{" +:+ keys_str +:+ "}"
  else if String.eqb style "textcite" then "\textcite{" +:+ keys_str +:+ "}"
  else "\cite{" +:+ keys_str +:+ "}".

(** The newline of the source's ["\n"]. *)
Definition nl : string := String (ascii_of_nat 10) "".

Definition format_bibtex_entry (reference : Reference) : string :=
  let entry_type := PyStr.lower (entry_type reference) in
  let key := key reference in
  let entry := "@" +:+ entry_type +:+ "{" +:+ key +:+ "," +:+ nl in
  let entry :=
    foldl (λ entry '(field, value),
             entry +:+ ("  " +:+ field +:+ " = {" +:+ value +:+ "}," +:+ nl))
          entry (fields reference) in
  entry +:+ "}".

Definition get_formatted_author_year (reference : Reference) : string :=
  let author := dict_get_default "author" "Unknown" (fields reference) in
  let year := dict_get_default "year" "n.d." (fields reference) in
  let last_name := last_name_of author in
  if PyStr.contains "and" author then
    let author_count := length (PyStr.split "and" author) in
    if author_count =? 2 then
      let authors := PyStr.split "and" author in
      let last_names :=
        (λ a, PyStr.strip (PyStr.item 0 (PyStr.split "," a))) <$> authors in
      PyStr.item 0 last_names +:+ " and " +:+ PyStr.item 1 last_names
        +:+ " (" +:+ year +:+ ")"
    else last_name +:+ " et al. (" +:+ year +:+ ")"
  else last_name +:+ " (" +:+ year +:+ ")".

End CitationFormatter.

(** ** The object store

    A [Reference] object is named by its address in the store; reading an
    attribute is a lookup and assigning to one is an [alter] at that
    address. Python has no dangling references: an address outside the
    store is reported as [None] where the source reads through it, and the
    theorems below show that this never happens from well-formed states. *)

Abbreviation loc := nat.
Abbreviation heap := (list Reference).

Definition set_key (v : string) (r : Reference) : Reference :=
  mkReference v (entry_type r) (fields r) (original_key r) (file_path r).
Definition set_original_key (v : option string) (r : Reference) : Reference :=
  mkReference (key r) (entry_type r) (fields r) v (file_path r).
Definition set_file_path (v : option string) (r : Reference) : Reference :=
  mkReference (key r) (entry_type r) (fields r) (original_key r) v.

(** [ref.key] *)
Definition key_at (h : heap) (ref : loc) : option string := key <$> h !! ref.

(** Fresh objects for a list of constructed values. *)
Definition alloc (h : heap) (rs : list Reference) : heap * list loc :=
  (h ++ rs, seq (length h) (length rs)).

Record Project : Type := mkProject {
  name : string;
  references : dict loc;
  project_file_path : option string
}.

(** [Project.add_reference]: [self.references[reference.key] = reference] *)
Definition add_reference (h : heap) (project : Project) (reference : loc) : Project :=
  match key_at h reference with
  | Some k =>
      mkProject (name project) (dict_set k reference (references project))
                (project_file_path project)
  | None => project
  end.

(** [Project.get_reference] *)
Definition get_reference (project : Project) (k : string) : option loc :=
  dict_get k (references project).

(** ** bibtex_parser.py *)
Module BibTexManager.

(** The body of the loop of [parse_bibtex_file]: [entry.pop('ID')],
    [entry.pop('ENTRYTYPE')], and what is left of the entry becomes the
    fields. A missing name is the [KeyError]. *)
Definition reference_of_entry (file_path : string) (entry : dict string)
    : option Reference :=
  '(key, entry) ← dict_pop "ID" entry;
  '(entry_type, entry) ← dict_pop "ENTRYTYPE" entry;
  Some (mkReference key entry_type entry (Some key) (Some file_path)).

Definition references_of_entries (file_path : string)
    (entries : list (dict string)) : option (list Reference) :=
  mapM (reference_of_entry file_path) entries.

(** The dictionary display [{'ID': ref.key, 'ENTRYTYPE': ref.entry_type,
    **ref.fields}]: the unpacked fields are assigned after the two fixed
    items. *)
Definition entry_of_reference (ref : Reference) : dict string :=
  foldl (λ entry '(field, value), dict_set field value entry)
        [("ID", key ref); ("ENTRYTYPE", entry_type ref)] (fields ref).

(** The loop of [find_duplicate_keys] that fills [key_map]. *)
Fixpoint collect_keys (h : heap) (references : list loc)
    (key_map : dict (list loc)) : option (dict (list loc)) :=
  match references with
  | [] => Some key_map
  | ref :: rest =>
      k ← key_at h ref;
      let key_map :=
        if dict_mem k key_map then key_map else dict_set k [] key_map in
      let key_map :=
        dict_set k (dict_get_default k [] key_map ++ [ref]) key_map in
      collect_keys h rest key_map
  end.

Definition find_duplicate_keys (h : heap) (references : list loc)
    : option (dict (list loc)) :=
  key_map ← collect_keys h references [];
  Some (filter (λ kv, 1 < length kv.2) key_map).

(** [ref.original_key = ref.key; ref.key = new_key] *)
Definition rename_to (new_key : string) (r : Reference) : Reference :=
  set_key new_key (set_original_key (Some (key r)) r).

(** [for i, ref in enumerate(dups)], from index [i] on. *)
Fixpoint rename_dups (key : string) (i : nat) (dups : list loc) (h : heap)
    : heap :=
  match dups with
  | [] => h
  | ref :: dups' =>
      let h :=
        if 0 <? i
        then alter (rename_to (key +:+ "_" +:+ PyStr.of_nat i)) ref h
        else h in
      rename_dups key (S i) dups' h
  end.

(** [for key, dups in duplicates.items()] *)
Fixpoint resolve_groups (duplicates : dict (list loc)) (h : heap) : heap :=
  match duplicates with
  | [] => h
  | (key, dups) :: rest => resolve_groups rest (rename_dups key 0 dups h)
  end.

(** The returned list is a copy of the argument list and holds the same
    objects; the renaming is done on the objects themselves. *)
Definition resolve_duplicate_keys (h : heap) (references : list loc)
    : option (list loc * heap) :=
  let resolved_refs := references in
  duplicates ← find_duplicate_keys h resolved_refs;
  let h :=
    match duplicates with
    | [] => h
    | _ => resolve_groups duplicates h
    end in
  Some (resolved_refs, h).

End BibTexManager.

(** What an operation raises. [Dangling] stands for reading through an
    address outside the store, which Python rules out. *)
Inductive exn : Type :=
| ValueError (msg : string)
| ParseError
| IOError
| Dangling.

Inductive result (A : Type) : Type :=
| Ok (a : A)
| Raise (e : exn).
Global Arguments Ok {A} a.
Global Arguments Raise {A} e.

(** The bibtexparser library and the files it reads and writes are outside
    the repository: the text format is a type [text], [loads] and [dumps]
    stand for [bibtexparser.load] and [bibtexparser.dump] on the contents
    of a file, and a file system maps a path to its contents. *)
Section library.
Context {text : Type}.
Variable loads : text → option (list (dict string)).
Variable dumps : list (dict string) → text.

Definition filesystem : Type := string → option text.

Definition fs_write (path : string) (t : text) (fs : filesystem) : filesystem :=
  λ p, if String.eqb p path then Some t else fs p.

(** [BibTexManager.parse_bibtex_file]; [None] is any exception raised on
    the way (unreadable file, malformed text, missing [ID]). *)
Definition parse_bibtex_file (fs : filesystem) (file_path : string)
    : option (list Reference) :=
  contents ← fs file_path;
  entries ← loads contents;
  BibTexManager.references_of_entries file_path entries.

(** [BibTexManager.write_bibtex_file] *)
Definition write_bibtex_file (references : list Reference)
    (file_path : string) (fs : filesystem) : filesystem :=
  let entries := BibTexManager.entry_of_reference <$> references in
  fs_write file_path (dumps entries) fs.

(** ** project_manager.py *)

(** [ref.key not in existing_keys] *)
Definition is_new (h : heap) (existing_keys : list string) (ref : loc) : bool :=
  match key_at h ref with
  | Some k => bool_decide (k ∉ existing_keys)
  | None => false
  end.

(** [ProjectManager.import_bibtex]. The persistence call that ends it
    does not touch the objects in memory and is left out. *)
Definition import_bibtex (fs : filesystem) (h : heap)
    (active_project : option Project) (file_path : string)
    : result (list loc * heap * Project) :=
  match active_project with
  | None => Raise (ValueError "No active project to import into")
  | Some project =>
      match parse_bibtex_file fs file_path with
      | None => Raise ParseError
      | Some parsed =>
          let '(h, refs) := alloc h parsed in
          let all_references := dict_values (references project) ++ refs in
          match BibTexManager.resolve_duplicate_keys h all_references with
          | None => Raise Dangling
          | Some (resolved_references, h) =>
              let existing_keys := dict_keys (references project) in
              let new_references :=
                filter (λ ref, is_new h existing_keys ref) resolved_references in
              let project := foldl (add_reference h) project new_references in
              Ok (new_references, h, project)
          end
      end
  end.

(** ** file_manager.py: attaching a document

    [path_join] is [str(Path(a) / b)] and [copy2] tells whether
    [shutil.copy2] succeeds. *)
Variable base_dir : string.
Variable path_join : string → string → string.
Variable copy2 : string → string → bool.

Definition get_project_dir (project_name : string) : string :=
  path_join base_dir project_name.

(** [FileManager.add_reference_file] *)
Definition add_reference_file (h : heap) (project : Project)
    (reference : loc) (file_path : string) : result heap :=
  let project_dir := get_project_dir (name project) in
  match h !! reference with
  | None => Raise Dangling
  | Some r =>
      let std_filename := get_standardized_filename r in
      let dest_path := path_join project_dir std_filename in
      if copy2 file_path dest_path
      then Ok (alter (set_file_path (Some dest_path)) reference h)
      else Raise IOError
  end.

(** [ProjectManager.add_reference_file] *)
Definition attach_file (h : heap) (active_project : option Project)
    (reference_key file_path : string) : result heap :=
  match active_project with
  | None => Raise (ValueError "No active project")
  | Some project =>
      match get_reference project reference_key with
      | None =>
          Raise (ValueError ("Reference with key '" +:+ reference_key
                             +:+ "' not found"))
      | Some reference => add_reference_file h project reference file_path
      end
  end.

End library.

(** * Further operations of the program *)

(** ** More of Python's [str] and [dict] *)

(** The scan behind [s.replace(old, new)] for a non-empty [old]:
    occurrences are found left to right and do not overlap; [skip] counts
    the characters of a recognised occurrence still to be passed over. *)
Fixpoint replace_go (old new : string) (skip : nat) (s : string) : string :=
  match s with
  | EmptyString => EmptyString
  | String c s' =>
      match skip with
      | S n => replace_go old new n s'
      | O =>
          if PyStr.startswith old s
          then new +:+ replace_go old new (String.length old - 1) s'
          else String c (replace_go old new 0 s')
      end
  end.

(** [s.replace(old, new)] *)
Definition str_replace (old new s : string) : string := replace_go old new 0 s.

(** [del d[k]], for a key that is present; a dictionary without the key
    is returned as it is. *)
Fixpoint dict_del {V : Type} (k : string) (d : dict V) : dict V :=
  match d with
  | [] => []
  | (k', v) :: d' =>
      if String.eqb k k' then d' else (k', v) :: dict_del k d'
  end.

(** ** models.py, the other methods of [Project] *)

(** [Project.remove_reference] *)
Definition remove_reference (project : Project) (k : string) : Project :=
  if dict_mem k (references project)
  then mkProject (name project) (dict_del k (references project))
                 (project_file_path project)
  else project.

(** [Project.get_all_references] *)
Definition get_all_references (project : Project) : list loc :=
  dict_values (references project).

(** ** citation.py, the full citation

    [clean_latex] is the conversion done by the pylatexenc library. *)
Section full_citation.
Variable clean_latex : string → string.

(** [if s:] on a string *)
Definition nonempty (s : string) : bool :=
  match s with EmptyString => false | String _ _ => true end.

Definition get_full_citation (reference : Reference) : string :=
  let entry_type := PyStr.lower (entry_type reference) in
  let author :=
    clean_latex (dict_get_default "author" "Unknown" (fields reference)) in
  let title :=
    clean_latex (dict_get_default "title" "Untitled" (fields reference)) in
  let year := dict_get_default "year" "n.d." (fields reference) in
  let author_text := str_replace " and " ", " author in
  if String.eqb entry_type "article" then
    let journal :=
      clean_latex
        (dict_get_default "journal" "Unknown Journal" (fields reference)) in
    let volume := dict_get_default "volume" "" (fields reference) in
    let number := dict_get_default "number" "" (fields reference) in
    let pages := dict_get_default "pages" "" (fields reference) in
    let vol_info := volume in
    let vol_info :=
      if nonempty number then vol_info +:+ "(" +:+ number +:+ ")"
      else vol_info in
    author_text +:+ ". (" +:+ year +:+ "). " +:+ title +:+ ". " +:+ journal
      +:+ ", " +:+ vol_info +:+ ", " +:+ pages +:+ "."
  else if String.eqb entry_type "book" then
    let publisher :=
      dict_get_default "publisher" "Unknown Publisher" (fields reference) in
    let address := dict_get_default "address" "" (fields reference) in
    let location := if nonempty address then address +:+ ": " else "" in
    author_text +:+ ". (" +:+ year +:+ "). " +:+ title +:+ ". " +:+ location
      +:+ publisher +:+ "."
  else if String.eqb entry_type "inproceedings"
          || String.eqb entry_type "conference" then
    let booktitle :=
      clean_latex
        (dict_get_default "booktitle" "Unknown Proceedings"
                          (fields reference)) in
    let pages := dict_get_default "pages" "" (fields reference) in
    author_text +:+ ". (" +:+ year +:+ "). " +:+ title +:+ ". In "
      +:+ booktitle +:+ ", " +:+ pages +:+ "."
  else if String.eqb entry_type "techreport" then
    let institution :=
      dict_get_default "institution" "Unknown Institution"
                       (fields reference) in
    let number := dict_get_default "number" "" (fields reference) in
    let report_info := "Technical Report" in
    let report_info :=
      if nonempty number then report_info +:+ " " +:+ number
      else report_info in
    author_text +:+ ". (" +:+ year +:+ "). " +:+ title +:+ ". "
      +:+ report_info +:+ ", " +:+ institution +:+ "."
  else
    author_text +:+ ". (" +:+ year +:+ "). " +:+ title +:+ ".".
End full_citation.

(** ** bibtex_parser.py and project_manager.py, merging and exporting *)
Section library_files.
Context {text : Type}.
Variable loads : text → option (list (dict string)).
Variable dumps : list (dict string) → text.

(** The objects of a list of addresses, as the serializer reads them. *)
Definition deref (h : heap) (refs : list loc) : option (list Reference) :=
  mapM (λ l, h !! l) refs.

(** [BibTexManager.merge_bibtex_files]. Every source is parsed, in the
    order listed, before anything is written; the parsed references are
    fresh objects. *)
Definition merge_bibtex_files (fs : string → option text) (h : heap)
    (file_paths : list string) (output_path : string)
    : result (heap * (string → option text)) :=
  match mapM (parse_bibtex_file loads fs) file_paths with
  | None => Raise ParseError
  | Some parsed =>
      let '(h, all_references) := alloc h (concat parsed) in
      match BibTexManager.resolve_duplicate_keys h all_references with
      | None => Raise Dangling
      | Some (resolved_references, h) =>
          match deref h resolved_references with
          | None => Raise Dangling
          | Some rs => Ok (h, write_bibtex_file dumps rs output_path fs)
          end
      end
  end.

(** [ProjectManager.export_bibtex] *)
Definition export_bibtex (fs : string → option text) (h : heap)
    (active_project : option Project) (file_path : string)
    : result (string → option text) :=
  match active_project with
  | None => Raise (ValueError "No active project to export from")
  | Some project =>
      match deref h (dict_values (references project)) with
      | None => Raise Dangling
      | Some rs => Ok (write_bibtex_file dumps rs file_path fs)
      end
  end.
End library_files.

(** ** file_manager.py, saving and loading a project

    What [json.dump] receives and [json.load] returns is a value of type
    [json]; the disk maps the path of a file to the value stored in it.
    The list of project names kept in a second file is not modelled. *)
Local Unset Elimination Schemes.
Inductive json : Type :=
| JNull
| JString (s : string)
| JObject (items : list (string * json)).
Local Set Elimination Schemes.

Definition json_of_option (o : option string) : json :=
  match o with Some s => JString s | None => JNull end.

(** How a loaded project file is read back. *)
Inductive loaded : Type :=
| NoFile
| Malformed
| Loaded (h : heap) (project : Project).

Section persistence.
Variable base_dir : string.
Variable path_join : string → string → string.

Definition project_file (project_name : string) : string :=
  path_join (path_join base_dir project_name) "project.json".

(** The dictionary written for one reference. *)
Definition reference_data (ref : Reference) : json :=
  JObject [("key", JString (key ref));
           ("entry_type", JString (entry_type ref));
           ("fields", JObject ((λ fv, (fv.1, JString fv.2)) <$> fields ref));
           ("original_key", json_of_option (original_key ref));
           ("file_path", json_of_option (file_path ref))].

(** The dictionary written for the project. *)
Definition project_data (h : heap) (project : Project) : option json :=
  refs ← mapM (λ kl, r ← h !! kl.2; Some (kl.1, reference_data r))
              (references project);
  Some (JObject [("name", JString (name project));
                 ("references", JObject refs)]).

(** [FileManager.save_project] *)
Definition save_project (disk : string → option json) (h : heap)
    (project : Project) : option (string → option json) :=
  data ← project_data h project;
  Some (fs_write (project_file (name project)) data disk).

(** A string attribute read with [d[k]]. *)
Definition json_string (k : string) (d : list (string * json)) : option string :=
  match dict_get k d with Some (JString s) => Some s | _ => None end.

(** An optional string attribute read with [d.get(k)]. *)
Definition json_optional (k : string) (d : list (string * json))
    : option (option string) :=
  match dict_get k d with
  | None | Some JNull => Some None
  | Some (JString s) => Some (Some s)
  | Some (JObject _) => None
  end.

Definition json_fields (j : json) : option (dict string) :=
  match j with
  | JObject items =>
      mapM (λ kj, match kj.2 with
                  | JString v => Some (kj.1, v)
                  | _ => None
                  end) items
  | _ => None
  end.

(** [Reference(key=ref_data["key"], ...)]; a value that is not of the
    type the attribute has in [Reference] has no counterpart here and is
    reported as [None], like a missing name. *)
Definition reference_of_data (ref_data : json) : option Reference :=
  match ref_data with
  | JObject d =>
      k ← json_string "key" d;
      t ← json_string "entry_type" d;
      f ← dict_get "fields" d ≫= json_fields;
      o ← json_optional "original_key" d;
      p ← json_optional "file_path" d;
      Some (mkReference k t f o p)
  | _ => None
  end.

(** The loop of [load_project] over the stored references: each one
    becomes a fresh object, bound under the name it was stored with. *)
Fixpoint load_references (items : list (string * json)) (h : heap)
    (refs : dict loc) : option (heap * dict loc) :=
  match items with
  | [] => Some (h, refs)
  | (k, ref_data) :: rest =>
      r ← reference_of_data ref_data;
      load_references rest (h ++ [r]) (dict_set k (length h) refs)
  end.

(** [FileManager.load_project] *)
Definition load_project (disk : string → option json) (h : heap)
    (project_name : string) : loaded :=
  match disk (project_file project_name) with
  | None => NoFile
  | Some (JObject data) =>
      match json_string "name" data with
      | None => Malformed
      | Some n =>
          let items :=
            match dict_get "references" data with
            | None => Some []
            | Some (JObject items) => Some items
            | Some _ => None
            end in
          match items ≫= (λ items, load_references items h []) with
          | None => Malformed
          | Some (h, refs) => Loaded h (mkProject n refs None)
          end
      end
  | Some _ => Malformed
  end.
End persistence.

(** * Vocabulary of the statements *)

Import BibTexManager CitationFormatter.

(** What resolution makes of an object that has [j] earlier references
    with the same key [k] in the sequence. *)
Definition resolved (k : string) (j : nat) (r : Reference) : Reference :=
  match j with
  | 0 => r
  | S _ => rename_to (k +:+ "_" +:+ PyStr.of_nat j) r
  end.

Definition has_key (h : heap) (k : string) (l : loc) : Prop :=
  key_at h l = Some k.

#[global] Instance has_key_dec h k l : Decision (has_key h k l) :=
  decide (key_at h l = Some k).

(** The references of a sequence that carry key [k], in order. *)
Definition group (h : heap) (k : string) (refs : list loc) : list loc :=
  filter (has_key h k) refs.

(** How many references before position [p] carry key [k]. *)
Definition earlier (h : heap) (refs : list loc) (p : nat) (k : string) : nat :=
  length (group h k (take p refs)).

Definition allocated (h : heap) (refs : list loc) : Prop :=
  Forall (λ l, is_Some (h !! l)) refs.

Definition groups_inv (h : heap) (done : list loc) (km : dict (list loc)) : Prop :=
  dict_wf km ∧
  ∀ k, dict_get k km =
       match group h k done with [] => None | v => Some v end.

(** The sample objects used to instantiate the theorems. *)
Definition sample (k : string) : Reference :=
  mkReference k "article" [("title", "T")] (Some k) (Some "refs.bib").

(** The closed set of styles. *)
Definition known_styles : list string :=
  ["cite"; "citep"; "citet"; "footcite"; "textcite"].

(** One line of the entry block. *)
Definition field_line (fv : string * string) : string :=
  "  " +:+ fv.1 +:+ " = {" +:+ fv.2 +:+ "}," +:+ nl.

(** The rule in the words of the specification: the authors are the
    pieces of the author field between occurrences of [" and "], with the
    spaces. *)
Definition spec_authors (author : string) : list string :=
  PyStr.split " and " author.

Definition spec_last_name (a : string) : string :=
  PyStr.strip (PyStr.item 0 (PyStr.split "," a)).

Definition spec_author_year (r : Reference) : string :=
  let year := dict_get_default "year" "n.d." (fields r) in
  match spec_last_name <$> spec_authors (dict_get_default "author" "Unknown" (fields r)) with
  | [last1] => last1 +:+ " (" +:+ year +:+ ")"
  | [last1; last2] => last1 +:+ " and " +:+ last2 +:+ " (" +:+ year +:+ ")"
  | last1 :: _ => last1 +:+ " et al. (" +:+ year +:+ ")"
  | [] => ""
  end.

Definition author_year_sample (author : string) : Reference :=
  mkReference "k" "article" [("author", author); ("year", "2020")] None None.

Definition filename_sample (author : string) : Reference :=
  mkReference "k" "article"
    [("author", author); ("year", "2021"); ("title", "A Study of Things!!")]
    None None.

(** A file system with one BibTeX file of one entry, read by a library
    whose text format is the list of entries itself. *)
Definition one_entry_fs : string → option (list (dict string)) :=
  λ p, if String.eqb p "refs.bib"
       then Some [[("ID", "a"); ("ENTRYTYPE", "article"); ("year", "2020")]]
       else None.





(** The names that [write_bibtex_file] and [parse_bibtex_file] use for the
    key and the entry type inside an entry. *)
Definition unreserved (r : Reference) : Prop :=
  dict_get "ID" (fields r) = None ∧ dict_get "ENTRYTYPE" (fields r) = None.

(** The project invariant: the dictionary binds every key to a reference
    of that key. *)
Definition project_keyed (h : heap) (project : Project) : Prop :=
  dict_wf (references project) ∧
  ∀ k l, dict_get k (references project) = Some l → key_at h l = Some k.

(** A file with the keys [a] and [b], and a project that already holds
    both, as a first import of that file into an empty project leaves it. *)
Definition two_entry_fs : string → option (list (dict string)) :=
  λ p, if String.eqb p "refs.bib"
       then Some [[("ID", "a"); ("ENTRYTYPE", "article")];
                  [("ID", "b"); ("ENTRYTYPE", "book")]]
       else None.

Definition two_entry_heap : heap :=
  [mkReference "a" "article" [] (Some "a") (Some "refs.bib");
   mkReference "b" "book" [] (Some "b") (Some "refs.bib")].

Definition two_entry_project : Project :=
  mkProject "p" [("a", 0); ("b", 1)] None.

(** A file with the keys [a] and [a_1]. *)
Definition colliding_fs : string → option (list (dict string)) :=
  λ p, if String.eqb p "refs.bib"
       then Some [[("ID", "a"); ("ENTRYTYPE", "article")];
                  [("ID", "a_1"); ("ENTRYTYPE", "book")]]
       else None.

(** A file with the keys [a], [a] and [a_1]. *)
Definition shadowing_fs : string → option (list (dict string)) :=
  λ p, if String.eqb p "refs.bib"
       then Some [[("ID", "a"); ("ENTRYTYPE", "article")];
                  [("ID", "a"); ("ENTRYTYPE", "misc")];
                  [("ID", "a_1"); ("ENTRYTYPE", "book")]]
       else None.

(** ** Vocabulary of the further properties *)

(** The attributes that renaming does not touch. *)
Definition same_contents (r r' : Reference) : Prop :=
  entry_type r' = entry_type r ∧ fields r' = fields r ∧
  file_path r' = file_path r.

(** The key of the reference with [j] earlier references of key [k]. *)
Definition renamed_key (k : string) (j : nat) : string :=
  match j with
  | 0 => k
  | S _ => k +:+ "_" +:+ PyStr.of_nat j
  end.

(** How many references before position [p] of a list of values have
    key [k]. *)
Definition count_before (rs : list Reference) (p : nat) (k : string) : nat :=
  length (filter (λ r, key r = k) (take p rs)).

(** Resolution on values: every reference is renamed by the number of
    earlier references with its key. *)
Definition resolve_values (rs : list Reference) : list Reference :=
  imap (λ p r, resolved (key r) (count_before rs p (key r)) r) rs.

(** Two files that both have an entry with key [a1]. *)
Definition merge_fs : string → option (list (dict string)) :=
  λ p, if String.eqb p "one.bib"
       then Some [[("ID", "a1"); ("ENTRYTYPE", "article"); ("year", "1")]]
       else if String.eqb p "two.bib"
       then Some [[("ID", "a1"); ("ENTRYTYPE", "book"); ("year", "2")]]
       else None.

(** The last name as the code takes it from one piece. *)
Definition piece_last_name (a : string) : string :=
  PyStr.strip (PyStr.item 0 (PyStr.split "," a)).

(** Every character of [s] satisfies [P]. *)
Fixpoint all_chars (P : ascii → bool) (s : string) : bool :=
  match s with
  | EmptyString => true
  | String c s' => P c && all_chars P s'
  end.

(** An alphanumeric character or the underscore. *)
Definition word_char (c : ascii) : bool :=
  PyStr.isalnum c || Ascii.eqb c "_".

(** The entry types that have a template of their own. *)
Definition templated_types : list string :=
  ["article"; "book"; "inproceedings"; "conference"; "techreport"].

(** No character of [s] is the underscore. *)
Definition no_underscore (s : string) : Prop :=
  all_chars (λ c, negb (Ascii.eqb c "_")) s = true.

(** * Properties *)

(** ** Dictionaries *)
Section dict_facts.
Context {V : Type}.
Implicit Types (d : dict V) (k : string) (v : V).

Lemma dict_get_elem_of k v d : dict_get k d = Some v → (k, v) ∈ d.
Proof.
  induction d as [|[k' v'] d IH]; simpl; [done|].
  destruct (String.eqb_spec k k') as [->|Hne].
  - intros [= ->]. left.
  - intros H. right. auto.
Qed.

Lemma dict_get_None k d : dict_get k d = None ↔ k ∉ dict_keys d.
Proof.
  unfold dict_keys. induction d as [|[k' v'] d IH]; simpl.
  - split; [intros _; apply not_elem_of_nil|done].
  - rewrite not_elem_of_cons. destruct (String.eqb_spec k k') as [->|Hne].
    + split; [done|]. intros [? _]. done.
    + rewrite IH. tauto.
Qed.

Lemma dict_get_is_Some k d : is_Some (dict_get k d) ↔ k ∈ dict_keys d.
Proof.
  destruct (dict_get k d) eqn:E.
  - split; [intros _|eauto].
    destruct (decide (k ∈ dict_keys d)) as [|Hn]; [done|].
    apply dict_get_None in Hn. congruence.
  - split; [intros [? [=]]|]. intros Hin. by apply dict_get_None in E.
Qed.

Lemma elem_of_dict_get k v d : dict_wf d → (k, v) ∈ d → dict_get k d = Some v.
Proof.
  unfold dict_wf, dict_keys. induction d as [|[k' v'] d IH]; simpl.
  - intros _ H. by apply elem_of_nil in H.
  - intros Hnd Hin. apply NoDup_cons in Hnd as [Hk' Hnd].
    apply elem_of_cons in Hin as [[= -> ->]|Hin].
    + by rewrite String.eqb_refl.
    + destruct (String.eqb_spec k k') as [->|Hne]; [|by apply IH].
      exfalso. apply Hk'. apply list_elem_of_fmap. by exists (k', v).
Qed.

Lemma dict_get_set k' k v d :
  dict_get k' (dict_set k v d) = if String.eqb k' k then Some v else dict_get k' d.
Proof.
  induction d as [|[k0 v0] d IH]; simpl; [done|].
  destruct (String.eqb_spec k k0) as [->|Hne]; simpl.
  - destruct (String.eqb_spec k' k0); done.
  - rewrite IH. destruct (String.eqb_spec k' k0) as [->|?]; [|done].
    destruct (String.eqb_spec k0 k); congruence.
Qed.

Lemma dict_keys_set k' k v d :
  k' ∈ dict_keys (dict_set k v d) ↔ k' = k ∨ k' ∈ dict_keys d.
Proof.
  rewrite <-!dict_get_is_Some, dict_get_set.
  destruct (String.eqb_spec k' k) as [->|?].
  - split; [by left|eauto].
  - split; [by right|by intros [?|?]].
Qed.

Lemma dict_set_wf k v d : dict_wf d → dict_wf (dict_set k v d).
Proof.
  unfold dict_wf. induction d as [|[k0 v0] d IH]; simpl.
  - intros _. apply NoDup_singleton.
  - unfold dict_keys in *. simpl. intros Hnd.
    apply NoDup_cons in Hnd as [Hk0 Hnd].
    destruct (String.eqb_spec k k0) as [->|Hne]; simpl.
    + by apply NoDup_cons.
    + apply NoDup_cons. split; [|by apply IH].
      intros Hin. apply (dict_keys_set k0 k v d) in Hin as [?|?]; [congruence|by apply Hk0].
Qed.

Lemma dict_pop_Some k d v :
  dict_get k d = Some v → ∃ d', dict_pop k d = Some (v, d').
Proof.
  induction d as [|[k0 v0] d IH]; simpl; [done|].
  destruct (String.eqb_spec k k0) as [->|Hne].
  - intros [= ->]. eauto.
  - intros H. destruct (IH H) as [d' ->]. simpl. eauto.
Qed.

Lemma dict_pop_get k d v d' :
  dict_wf d → dict_pop k d = Some (v, d') →
  dict_get k d = Some v ∧ dict_wf d' ∧
  ∀ k', dict_get k' d' = if String.eqb k' k then None else dict_get k' d.
Proof.
  unfold dict_wf, dict_keys. revert d'.
  induction d as [|[k0 v0] d IH]; simpl; intros d' Hnd; [done|].
  apply NoDup_cons in Hnd as [Hk0 Hnd].
  destruct (String.eqb_spec k k0) as [->|Hne].
  - intros [= -> ->]. split_and!; [done..|].
    intros k'. destruct (String.eqb_spec k' k0) as [->|?]; [|done].
    by apply dict_get_None.
  - destruct (dict_pop k d) as [[x r]|] eqn:E; simpl; [|done].
    intros [= -> <-]. destruct (IH r Hnd eq_refl) as (Hg & Hwf & Hr).
    split_and!; [done| |].
    + simpl. apply NoDup_cons. split; [|done].
      intros Hin. apply dict_get_is_Some in Hin as [y Hy].
      rewrite Hr in Hy. destruct (String.eqb k0 k); [done|].
      apply Hk0. apply dict_get_is_Some. eauto.
    + intros k'. simpl. rewrite Hr.
      destruct (String.eqb_spec k' k0) as [->|?]; [|done].
      destruct (String.eqb_spec k0 k); congruence.
Qed.
End dict_facts.

Lemma elem_of_concat {A} (x : A) (ls : list (list A)) :
  x ∈ concat ls ↔ ∃ l, x ∈ l ∧ l ∈ ls.
Proof.
  induction ls as [|l ls IH]; simpl.
  - split; [intros H; by apply elem_of_nil in H|].
    intros (l & _ & H). by apply elem_of_nil in H.
  - rewrite elem_of_app, IH. split.
    + intros [H|(l' & H1 & H2)]; [exists l|exists l']; split; try done.
      * left.
      * by right.
    + intros (l' & H1 & H2). apply elem_of_cons in H2 as [->|H2]; eauto.
Qed.

(** ** Renaming the members of one duplicate set *)
Module ResolveFacts.
Import BibTexManager.

Lemma rename_dups_notin k i dups (h : heap) l :
  l ∉ dups → rename_dups k i dups h !! l = h !! l.
Proof.
  revert i h. induction dups as [|ref dups IH]; intros i h Hl; simpl; [done|].
  apply not_elem_of_cons in Hl as [Hne Hl]. rewrite IH by done.
  destruct (0 <? i); [|done]. by apply list_lookup_alter_ne.
Qed.

Lemma rename_dups_at k i dups (h : heap) j l :
  NoDup dups → dups !! j = Some l →
  rename_dups k i dups h !! l = resolved k (i + j) <$> h !! l.
Proof.
  revert i h j. induction dups as [|ref dups IH]; intros i h j Hnd Hj; [done|].
  apply NoDup_cons in Hnd as [Href Hnd]. destruct j as [|j]; simpl in *.
  - injection Hj as ->. rewrite rename_dups_notin by done.
    rewrite Nat.add_0_r. destruct i as [|i]; simpl.
    + by rewrite option_fmap_id.
    + apply list_lookup_alter_eq.
  - rewrite (IH (S i) _ j) by done.
    replace (i + S j) with (S i + j) by lia.
    assert (ref ≠ l) as Hne.
    { intros ->. apply Href. apply list_elem_of_lookup. eauto. }
    destruct (0 <? i); [|done]. by rewrite list_lookup_alter_ne.
Qed.

Lemma resolve_groups_notin (gs : dict (list loc)) (h : heap) l :
  l ∉ concat (dict_values gs) → resolve_groups gs h !! l = h !! l.
Proof.
  unfold dict_values. revert h.
  induction gs as [|[k dups] gs IH]; intros h Hl; simpl in *; [done|].
  apply not_elem_of_app in Hl as [Hl1 Hl2].
  rewrite IH by done. by apply rename_dups_notin.
Qed.

Lemma resolve_groups_at (gs : dict (list loc)) (h : heap) k dups j l :
  NoDup (concat (dict_values gs)) → (k, dups) ∈ gs → dups !! j = Some l →
  resolve_groups gs h !! l = resolved k j <$> h !! l.
Proof.
  unfold dict_values. revert h.
  induction gs as [|[k0 d0] gs IH]; intros h Hnd Hin Hj; simpl in *.
  - by apply elem_of_nil in Hin.
  - apply NoDup_app in Hnd as (Hd0 & Hdisj & Hnd).
    apply elem_of_cons in Hin as [[= <- <-]|Hin].
    + rewrite resolve_groups_notin.
      * by apply (rename_dups_at k 0).
      * apply Hdisj. apply list_elem_of_lookup. eauto.
    + rewrite IH by done. rewrite rename_dups_notin; [done|].
      intros Hl. apply (Hdisj l Hl). apply elem_of_concat.
      exists dups. split; [apply list_elem_of_lookup; eauto|].
      apply list_elem_of_fmap. by exists (k, dups).
Qed.

(** *** The key map built by [find_duplicate_keys] *)

Lemma group_snoc h k done ref k0 :
  key_at h ref = Some k0 →
  group h k (done ++ [ref]) =
    group h k done ++ (if String.eqb k k0 then [ref] else []).
Proof.
  intros Hk. unfold group. rewrite filter_app, (filter_singleton _ ref []). f_equal.
  destruct (String.eqb_spec k k0) as [->|Hne].
  - by rewrite decide_True.
  - rewrite decide_False; [done|]. unfold has_key. congruence.
Qed.

Lemma collect_keys_inv h refs done km :
  allocated h refs → groups_inv h done km →
  ∃ km', collect_keys h refs km = Some km' ∧ groups_inv h (done ++ refs) km'.
Proof.
  revert done km. induction refs as [|ref refs IH]; intros done km Hal Hinv.
  - exists km. by rewrite app_nil_r.
  - apply Forall_cons in Hal as [[r Hr] Hal]. simpl.
    assert (key_at h ref = Some (key r)) as Hk by (unfold key_at; by rewrite Hr).
    rewrite Hk. simpl. set (k := key r) in *.
    set (km1 := if dict_mem k km then km else dict_set k [] km).
    set (km2 := dict_set k (dict_get_default k [] km1 ++ [ref]) km1).
    replace (done ++ ref :: refs) with ((done ++ [ref]) ++ refs)
      by (by rewrite <-app_assoc).
    apply IH; [done|]. destruct Hinv as [Hwf Hget].
    assert (dict_wf km1) as Hwf1.
    { unfold km1. destruct (dict_mem k km); [done|]. by apply dict_set_wf. }
    split; [by apply dict_set_wf|].
    assert (dict_get_default k [] km1 = group h k done) as Hdef.
    { unfold dict_get_default, km1, dict_mem. rewrite (Hget k).
      destruct (group h k done) as [|x v] eqn:E; simpl.
      - by rewrite dict_get_set, String.eqb_refl.
      - by rewrite Hget, E. }
    intros k'. unfold km2. rewrite dict_get_set, Hdef.
    rewrite (group_snoc h k' done ref k) by done.
    destruct (String.eqb_spec k' k) as [->|Hne].
    + by destruct (group h k done).
    + rewrite app_nil_r, <-(Hget k'). unfold km1.
      destruct (dict_mem k km); [done|]. rewrite dict_get_set.
      by destruct (String.eqb_spec k' k).
Qed.

Lemma collect_keys_spec h refs :
  allocated h refs →
  ∃ km, collect_keys h refs [] = Some km ∧ groups_inv h refs km.
Proof.
  intros Hal. apply (collect_keys_inv h refs [] []); [done|].
  split; [apply NoDup_nil_2|done].
Qed.

Lemma groups_inv_elem h refs km k v :
  groups_inv h refs km → (k, v) ∈ km → v = group h k refs ∧ v ≠ [].
Proof.
  intros [Hwf Hget] Hin. apply (elem_of_dict_get _ _ _ Hwf) in Hin.
  rewrite Hget in Hin. destruct (group h k refs); [done|].
  injection Hin as <-. done.
Qed.

Lemma groups_inv_group h refs km k l :
  groups_inv h refs km → l ∈ refs → key_at h l = Some k →
  (k, group h k refs) ∈ km.
Proof.
  intros [Hwf Hget] Hin Hk. apply dict_get_elem_of. rewrite Hget.
  destruct (group h k refs) eqn:E; [|done].
  exfalso. eapply (filter_nil_not_elem_of (has_key h k)); [exact E|exact Hk|done].
Qed.

Lemma filter_dict_wf {V} (P : string * V → Prop) `{!∀ x, Decision (P x)}
    (d : dict V) :
  dict_wf d → dict_wf (filter P d).
Proof.
  unfold dict_wf, dict_keys. intros Hd. eapply sublist_NoDup; [exact Hd|].
  apply fmap_sublist, sublist_filter.
Qed.

Lemma groups_concat_NoDup h refs (gs : dict (list loc)) :
  dict_wf gs → (∀ k v, (k, v) ∈ gs → v = group h k refs) → NoDup refs →
  NoDup (concat (dict_values gs)).
Proof.
  unfold dict_wf, dict_keys, dict_values. intros Hwf Hgs Hnd.
  induction gs as [|[k v] gs IH]; simpl in *; [apply NoDup_nil_2|].
  apply NoDup_cons in Hwf as [Hk Hwf]. apply NoDup_app. split_and!.
  - rewrite (Hgs k v) by left. by apply NoDup_filter.
  - intros l Hl Hl'. apply elem_of_concat in Hl' as (v' & Hlv' & Hv').
    apply list_elem_of_fmap in Hv' as ([k' v''] & -> & Hin). simpl in *.
    rewrite (Hgs k v) in Hl by left.
    rewrite (Hgs k' v'') in Hlv' by (by right).
    apply list_elem_of_filter in Hl as [Hl _].
    apply list_elem_of_filter in Hlv' as [Hl' _].
    unfold has_key in *. assert (k = k') as -> by congruence.
    apply Hk. apply list_elem_of_fmap. by exists (k', v'').
  - apply IH; [done|]. intros k' v' Hin. apply Hgs. by right.
Qed.

Lemma group_position h refs p l k :
  refs !! p = Some l → key_at h l = Some k →
  group h k refs !! earlier h refs p k = Some l.
Proof.
  intros Hp Hk. unfold earlier.
  assert (group h k refs =
          group h k (take p refs) ++ l :: group h k (drop (S p) refs)) as ->.
  { rewrite <-(take_drop_middle refs p l Hp) at 1. unfold group.
    by rewrite filter_app, filter_cons_True. }
  by apply list_lookup_middle.
Qed.

(** The store after resolution, object by object. *)
Lemma resolve_duplicate_keys_lookup h refs :
  NoDup refs → allocated h refs →
  ∃ h', resolve_duplicate_keys h refs = Some (refs, h') ∧
    length h' = length h ∧
    (∀ l, l ∉ refs → h' !! l = h !! l) ∧
    (∀ p l k, refs !! p = Some l → key_at h l = Some k →
       h' !! l = resolved k (earlier h refs p k) <$> h !! l).
Proof.
  intros Hnd Hal. destruct (collect_keys_spec h refs Hal) as (km & Hkm & Hinv).
  set (dups := filter (λ kv : string * list loc, 1 < length kv.2) km).
  exists (resolve_groups dups h).
  assert (∀ k v, (k, v) ∈ dups → v = group h k refs) as Hdups.
  { intros k v Hin. apply list_elem_of_filter in Hin as [_ Hin].
    by apply (groups_inv_elem h refs km). }
  assert (NoDup (concat (dict_values dups))) as Hcat.
  { apply (groups_concat_NoDup h refs); [|done..].
    apply filter_dict_wf, Hinv. }
  split_and!.
  - unfold resolve_duplicate_keys, find_duplicate_keys. rewrite Hkm. simpl.
    fold dups. by destruct dups.
  - clear. generalize h. induction dups as [|[k v] gs IH]; intros h0; [done|].
    simpl. rewrite IH. clear. revert h0. generalize 0.
    induction v as [|x v IH]; intros i h0; [done|]. simpl. rewrite IH.
    destruct (0 <? i); [apply length_alter|done].
  - intros l Hl. apply resolve_groups_notin. intros Hin.
    apply elem_of_concat in Hin as (v & Hlv & Hv).
    apply list_elem_of_fmap in Hv as ([k v'] & -> & Hin). simpl in *.
    rewrite (Hdups k v' Hin) in Hlv.
    apply list_elem_of_filter in Hlv as [_ ?]. done.
  - intros p l k Hp Hk.
    assert (l ∈ refs) as Hl by (apply list_elem_of_lookup; eauto).
    pose proof (group_position h refs p l k Hp Hk) as Hpos.
    pose proof (groups_inv_group h refs km k l Hinv Hl Hk) as Hin.
    destruct (decide (1 < length (group h k refs))) as [Hlen|Hlen].
    + apply (resolve_groups_at dups h k (group h k refs)); [done| |done].
      apply list_elem_of_filter. by split.
    + apply lookup_lt_Some in Hpos as Hlt.
      assert (earlier h refs p k = 0) as -> by lia. simpl.
      rewrite option_fmap_id. apply resolve_groups_notin. intros Hcin.
      apply elem_of_concat in Hcin as (v & Hlv & Hv).
      apply list_elem_of_fmap in Hv as ([k' v'] & -> & Hin'). simpl in *.
      pose proof (Hdups k' v' Hin') as ->.
      apply list_elem_of_filter in Hin' as [Hlen' _]. simpl in Hlen'.
      apply list_elem_of_filter in Hlv as [Hk' _]. unfold has_key in Hk'.
      assert (k' = k) as -> by congruence. done.
Qed.
End ResolveFacts.

(** * Theorems *)

Import BibTexManager ResolveFacts.

Lemma filter_all {A} (P : A → Prop) `{!∀ x, Decision (P x)} (l : list A) :
  Forall P l → filter P l = l.
Proof.
  induction 1 as [|x l Hx _ IH]; [done|]. by rewrite filter_cons_True, IH.
Qed.

Lemma filter_none {A} (P : A → Prop) `{!∀ x, Decision (P x)} (l : list A) :
  Forall (λ x, ¬ P x) l → filter P l = [].
Proof.
  induction 1 as [|x l Hx _ IH]; [done|]. by rewrite filter_cons_False.
Qed.

Lemma group_length_NoDup h k refs :
  NoDup (key_at h <$> refs) → length (group h k refs) ≤ 1.
Proof.
  unfold group. induction refs as [|l refs IH]; simpl; [lia|].
  intros Hnd. apply NoDup_cons in Hnd as [Hl Hnd].
  rewrite filter_cons. destruct (decide (has_key h k l)) as [Hk|Hk]; [|auto].
  rewrite filter_none; [simpl; lia|].
  apply Forall_forall. intros l' Hl' Hk'. apply Hl.
  unfold has_key in *. rewrite Hk, <-Hk'. by apply list_elem_of_fmap_2.
Qed.

(** Closed decidable facts about concrete data. *)
Ltac by_decide := apply (bool_decide_unpack _); vm_compute; exact I.

(** C1. On a sequence of distinct [Reference] objects, resolution returns
    the same sequence; a reference with no earlier reference of the same
    key (the first occurrence of a duplicated key, or a reference whose key
    is not duplicated) is left as it was; a reference with [i ≥ 1] earlier
    references of the same key gets the key [{key}_{i}] and its
    [original_key] becomes the key it had, its other attributes staying.
    In particular [n ≥ 2] references that all have key [k] end with the
    keys [k], [k_1], ..., [k_{n-1}] in the original order, and each renamed
    one has [original_key] equal to [k]. *)
Theorem resolve_duplicate_keys_renames (h : heap) (refs : list loc) :
  NoDup refs → allocated h refs →
  ∃ h', resolve_duplicate_keys h refs = Some (refs, h') ∧
    (∀ p l r, refs !! p = Some l → h !! l = Some r →
       h' !! l =
         Some match earlier h refs p (key r) with
              | 0 => r
              | S _ as i =>
                  mkReference (key r +:+ "_" +:+ PyStr.of_nat i) (entry_type r)
                              (fields r) (Some (key r)) (file_path r)
              end) ∧
    (∀ k, 2 ≤ length refs → Forall (has_key h k) refs →
       key_at h' <$> refs =
         Some <$> k :: ((λ i, k +:+ "_" +:+ PyStr.of_nat i)
                          <$> seq 1 (length refs - 1)) ∧
       Forall (λ l, original_key <$> h' !! l = Some (Some k)) (drop 1 refs)).
Proof.
  intros Hnd Hal.
  destruct (resolve_duplicate_keys_lookup h refs Hnd Hal)
    as (h' & Hres & _ & _ & Hat).
  exists h'. split; [done|].
  assert (∀ p l r, refs !! p = Some l → h !! l = Some r →
            h' !! l = Some (resolved (key r) (earlier h refs p (key r)) r)) as Hat'.
  { intros p l r Hp Hr. rewrite (Hat p l (key r) Hp), Hr; [done|].
    unfold key_at. by rewrite Hr. }
  split.
  - intros p l r Hp Hr. rewrite (Hat' p l r Hp Hr).
    unfold resolved. by destruct (earlier h refs p (key r)).
  - intros k Hlen Hall.
    assert (∀ p l, refs !! p = Some l →
              ∃ r, h !! l = Some r ∧ key r = k ∧
                   h' !! l = Some (resolved k p r)) as Hpos.
    { intros p l Hp. pose proof (Forall_lookup_1 _ _ _ _ Hall Hp) as Hk.
      unfold has_key, key_at in Hk. destruct (h !! l) as [r|] eqn:Hr; [|done].
      injection Hk as Hk. exists r. split_and!; [done..|].
      rewrite (Hat' p l r Hp Hr), Hk. do 2 f_equal.
      unfold earlier, group. rewrite filter_all.
      - rewrite length_take. apply lookup_lt_Some in Hp. lia.
      - by apply Forall_take. }
    split.
    + apply list_eq. intros p. rewrite !list_lookup_fmap.
      destruct (refs !! p) as [l|] eqn:Hp; simpl.
      * destruct (Hpos p l Hp) as (r & Hr & Hk & Hr').
        apply lookup_lt_Some in Hp as Hlt.
        unfold key_at. rewrite Hr'. destruct p as [|p]; simpl.
        { by rewrite Hk. }
        rewrite list_lookup_fmap, lookup_seq_lt by lia. done.
      * apply lookup_ge_None in Hp. rewrite lookup_ge_None_2; [done|].
        simpl. rewrite length_fmap, length_seq. lia.
    + apply Forall_lookup. intros p l Hp. rewrite lookup_drop in Hp.
      destruct (Hpos (1 + p) l Hp) as (r & Hr & Hk & Hr').
      rewrite Hr'. simpl. by rewrite Hk.
Qed.

Lemma resolve_duplicate_keys_renames_witness :
  ∃ h', resolve_duplicate_keys [sample "k"; sample "k"; sample "x"] [0; 1; 2]
        = Some ([0; 1; 2], h') ∧
        key_at h' <$> [0; 1; 2] = [Some "k"; Some "k_1"; Some "x"].
Proof.
  destruct (resolve_duplicate_keys_renames
              [sample "k"; sample "k"; sample "x"] [0; 1; 2])
    as (h' & Hres & _).
  - by_decide.
  - repeat constructor; eauto.
  - exists h'. split; [exact Hres|].
    vm_compute in Hres. injection Hres as <-. reflexivity.
Defined.

(** C7. A sequence in which no two references have the same key is
    returned as it is, and no object is changed: same keys, same
    [original_key] values, same order. *)
Theorem resolve_duplicate_keys_idempotent (h : heap) (refs : list loc) :
  allocated h refs → NoDup (key_at h <$> refs) →
  resolve_duplicate_keys h refs = Some (refs, h).
Proof.
  intros Hal Hnd. destruct (collect_keys_spec h refs Hal) as (km & Hkm & Hinv).
  unfold resolve_duplicate_keys, find_duplicate_keys. rewrite Hkm. simpl.
  assert (filter (λ kv : string * list loc, 1 < length kv.2) km = []) as ->;
    [|done].
  apply filter_none, Forall_forall. intros [k v] Hin. simpl.
  destruct (groups_inv_elem h refs km k v Hinv Hin) as [-> _].
  pose proof (group_length_NoDup h k refs Hnd). lia.
Qed.

Lemma resolve_duplicate_keys_idempotent_witness :
  resolve_duplicate_keys [sample "a"; sample "a_1"; sample "b"] [0; 1; 2]
  = Some ([0; 1; 2], [sample "a"; sample "a_1"; sample "b"]).
Proof.
  apply resolve_duplicate_keys_idempotent.
  - repeat constructor; eauto.
  - by_decide.
Defined.

(** C10. One pass does not make the keys unique: on three distinct
    references with keys [k], [k], [k_1], in that order, the second is
    renamed to [k_1], which the third already has, so the result holds two
    references with the same key. *)
Theorem resolve_duplicate_keys_may_collide :
  ∃ (h h' : heap) (refs : list loc),
    NoDup refs ∧
    key_at h <$> refs = [Some "k"; Some "k"; Some "k_1"] ∧
    resolve_duplicate_keys h refs = Some (refs, h') ∧
    key_at h' <$> refs = [Some "k"; Some "k_1"; Some "k_1"] ∧
    ¬ NoDup (key_at h' <$> refs).
Proof.
  exists [sample "k"; sample "k"; sample "k_1"].
  eexists. exists [0; 1; 2]. split_and!.
  - by_decide.
  - reflexivity.
  - vm_compute. reflexivity.
  - reflexivity.
  - simpl. intros Hnd. apply NoDup_cons in Hnd as [_ Hnd].
    apply NoDup_cons in Hnd as [Hin _]. apply Hin. left.
Qed.

(** ** Citation macros *)
Import CitationFormatter.

Lemma string_app_cons (x : ascii) (a b : string) :
  String x a +:+ b = String x (a +:+ b).
Proof. reflexivity. Qed.

Lemma string_app_assoc (a b c : string) : (a +:+ b) +:+ c = a +:+ b +:+ c.
Proof.
  induction a as [|x a IH]; [done|]. by rewrite !string_app_cons, IH.
Qed.

Lemma string_app_nil_r (a : string) : a +:+ "" = a.
Proof.
  induction a as [|x a IH]; [done|]. by rewrite string_app_cons, IH.
Qed.

(** The joining of [format_multiple_citations] is the concatenation with
    separators of the standard library. *)
Lemma join_concat (sep : string) (parts : list string) :
  PyStr.join sep parts = String.concat sep parts.
Proof.
  induction parts as [|p ps IH]; [done|].
  destruct ps as [|q ps]; [done|].
  cbn [PyStr.join String.concat]. cbn [PyStr.join String.concat] in IH.
  by rewrite IH.
Qed.

(** C8. For a style of the closed set the macro is that style, for any
    other string it is [cite]; the braces hold the key of the reference,
    or, for a list, the keys in the order given with one comma between
    two neighbours: nothing for no reference, the key alone for one, and
    the first key, a comma and the keys of the rest otherwise. On key
    [smith2020] and style [citep] the result is [\citep{smith2020}]; on
    the keys [a], [b], [c] and style [citet] it is [\citet{a,b,c}]. *)
Theorem format_citation_macro (r : Reference) (rs : list Reference)
    (style : string) :
  let macro := if bool_decide (style ∈ known_styles) then style else "cite" in
  format_citation r style = "\" +:+ macro +:+ "{" +:+ key r +:+ "}" ∧
  format_multiple_citations rs style
    = "\" +:+ macro +:+ "{" +:+ String.concat "," (key <$> rs) +:+ "}" ∧
  format_multiple_citations [] style = "\" +:+ macro +:+ "{}" ∧
  format_multiple_citations [r] style
    = "\" +:+ macro +:+ "{" +:+ key r +:+ "}" ∧
  (∀ r' rs', format_multiple_citations (r :: r' :: rs') style
     = "\" +:+ macro +:+ "{" +:+ key r +:+ ","
         +:+ String.concat "," (key <$> r' :: rs') +:+ "}") ∧
  format_citation (sample "smith2020") "citep" = "\citep{smith2020}" ∧
  format_multiple_citations [sample "a"; sample "b"; sample "c"] "citet"
    = "\citet{a,b,c}" ∧
  format_multiple_citations [sample "b"; sample "a"] "nonsense"
    = "\cite{b,a}" ∧
  format_multiple_citations [] "footcite" = "\footcite{}".
Proof.
  assert (∀ xs, format_multiple_citations xs style
    = "\" +:+ (if bool_decide (style ∈ known_styles) then style else "cite")
        +:+ "{" +:+ String.concat "," (key <$> xs) +:+ "}") as Hlist.
  { intros xs. unfold format_multiple_citations. rewrite join_concat.
    destruct (String.eqb_spec style "cite") as [->|H1]; [done|].
    destruct (String.eqb_spec style "citep") as [->|H2]; [done|].
    destruct (String.eqb_spec style "citet") as [->|H3]; [done|].
    destruct (String.eqb_spec style "footcite") as [->|H4]; [done|].
    destruct (String.eqb_spec style "textcite") as [->|H5]; [done|].
    rewrite bool_decide_eq_false_2; [done|].
    intros Hin. unfold known_styles in Hin.
    repeat (apply elem_of_cons in Hin as [->|Hin]; [done|]).
    by apply elem_of_nil in Hin. }
  cbv zeta. repeat split; try reflexivity.
  - unfold format_citation.
    destruct (String.eqb_spec style "cite") as [->|H1]; [done|].
    destruct (String.eqb_spec style "citep") as [->|H2]; [done|].
    destruct (String.eqb_spec style "citet") as [->|H3]; [done|].
    destruct (String.eqb_spec style "footcite") as [->|H4]; [done|].
    destruct (String.eqb_spec style "textcite") as [->|H5]; [done|].
    rewrite bool_decide_eq_false_2; [done|].
    intros Hin. unfold known_styles in Hin.
    repeat (apply elem_of_cons in Hin as [->|Hin]; [done|]).
    by apply elem_of_nil in Hin.
  - apply Hlist.
  - apply Hlist.
  - apply Hlist.
  - intros r' rs'. rewrite Hlist.
    change (String.concat "," (key <$> r :: r' :: rs'))
      with (key r +:+ "," +:+ String.concat "," (key <$> r' :: rs')).
    by rewrite !string_app_assoc.
Qed.

(** ** BibTeX rendering of one reference *)

Lemma foldl_field_lines (entry : string) (fs : dict string) :
  foldl (λ entry '(field, value),
           entry +:+ ("  " +:+ field +:+ " = {" +:+ value +:+ "}," +:+ nl))
        entry fs
  = entry +:+ foldr String.append "" (field_line <$> fs).
Proof.
  revert entry. induction fs as [|[f v] fs IH]; intros entry; simpl.
  - by rewrite string_app_nil_r.
  - rewrite IH. unfold field_line at 2. simpl. by rewrite string_app_assoc.
Qed.

(** C5, as the code has it. The block opens with [@], the entry type in
    lower case, [{], the key and a comma; then comes one line
    [  name = {value},] per field in the order of the fields; then the
    closing brace. An entry type that is already in lower case appears as
    stored. *)
Theorem format_bibtex_entry_block (r : Reference) :
  format_bibtex_entry r
  = "@" +:+ PyStr.lower (entry_type r) +:+ "{" +:+ key r +:+ "," +:+ nl
    +:+ foldr String.append "" (field_line <$> fields r) +:+ "}".
Proof.
  unfold format_bibtex_entry. rewrite foldl_field_lines.
  by rewrite !string_app_assoc.
Qed.

(** C5 as stated fails: the entry type [Article] is lowered, and the text
    [Article] does not occur in the block at all. *)
Lemma format_bibtex_entry_lowers_type :
  let r := mkReference "k" "Article" [("title", "T")] None None in
  format_bibtex_entry r
    = "@article{k," +:+ nl +:+ "  title = {T}," +:+ nl +:+ "}" ∧
  PyStr.contains (entry_type r) (format_bibtex_entry r) = false.
Proof. split; reflexivity. Qed.

(** ** Author and year *)

(** C4 at a single author whose name holds the letters [and]: the code
    cuts the name at those letters and reports two authors, where the
    rule of the specification gives the name and the year. *)
Theorem get_formatted_author_year_cuts_names :
  get_formatted_author_year (author_year_sample "Sandberg, A.")
    = "S and berg (2020)" ∧
  spec_author_year (author_year_sample "Sandberg, A.") = "Sandberg (2020)".
Proof. split; reflexivity. Qed.

(** The two examples of the specification, on which code and rule agree. *)
Example get_formatted_author_year_two :
  get_formatted_author_year (author_year_sample "Smith, J. and Doe, A.")
    = "Smith and Doe (2020)".
Proof. reflexivity. Qed.

Example get_formatted_author_year_three :
  get_formatted_author_year
    (author_year_sample "Smith, J. and Doe, A. and Lee, B.")
    = "Smith et al. (2020)".
Proof. reflexivity. Qed.

(** ** Standardized file name *)

(** C6 at the same author: the file name starts with the cut name [S],
    not with the last name [Sandberg] of the first author. *)
Theorem get_standardized_filename_cuts_names :
  get_standardized_filename (filename_sample "Sandberg, A.")
    = "S_2021_A_Study_of.pdf" ∧
  spec_last_name (PyStr.item 0 (spec_authors "Sandberg, A.")) = "Sandberg".
Proof. split; reflexivity. Qed.

(** The example of the specification. *)
Example get_standardized_filename_doe :
  get_standardized_filename (filename_sample "Doe, J.")
    = "Doe_2021_A_Study_of.pdf".
Proof. reflexivity. Qed.

(** The shape of the file name, with the last name as the code cuts it. *)
Lemma get_standardized_filename_shape (r : Reference) :
  get_standardized_filename r
  = last_name_of (dict_get_default "author" "Unknown" (fields r)) +:+ "_"
    +:+ dict_get_default "year" "XXXX" (fields r) +:+ "_"
    +:+ PyStr.join "_"
          (take 3 (PyStr.words
                     (PyStr.filter_chars
                        (λ c, PyStr.isalnum c || PyStr.isspace c)
                        (dict_get_default "title" "Untitled" (fields r)))))
    +:+ ".pdf".
Proof. reflexivity. Qed.

(** ** The attached file *)

Lemma rename_dups_file_path k i dups (h : heap) l :
  file_path <$> rename_dups k i dups h !! l = file_path <$> h !! l.
Proof.
  revert i h. induction dups as [|ref dups IH]; intros i h; simpl; [done|].
  rewrite IH. destruct (0 <? i); [|done].
  rewrite list_lookup_alter. case_decide; [subst|done].
  by destruct (h !! l).
Qed.

Lemma resolve_groups_file_path (gs : dict (list loc)) (h : heap) l :
  file_path <$> resolve_groups gs h !! l = file_path <$> h !! l.
Proof.
  revert h. induction gs as [|[k dups] gs IH]; intros h; simpl; [done|].
  by rewrite IH, rename_dups_file_path.
Qed.

Lemma reference_of_entry_Some path e r :
  reference_of_entry path e = Some r →
  ∃ e1 e2, dict_pop "ID" e = Some (key r, e1) ∧
           dict_pop "ENTRYTYPE" e1 = Some (entry_type r, e2) ∧
           fields r = e2 ∧ original_key r = Some (key r) ∧
           file_path r = Some path.
Proof.
  unfold reference_of_entry.
  destruct (dict_pop "ID" e) as [[k e1]|]; simpl; [|done].
  destruct (dict_pop "ENTRYTYPE" e1) as [[t e2]|] eqn:E2; simpl; [|done].
  intros [= <-]. simpl. exists e1, e2. by split_and!.
Qed.

(** C9, as the code has it. A reference produced by parsing a BibTeX file
    has [file_path] set to the path of that file; duplicate resolution
    leaves the [file_path] of every object as it is; attaching a document
    sets the [file_path] of that reference to the destination of the copy,
    the standardized file name inside the project directory, and changes
    no other object. *)
Theorem file_path_after_parse_resolve_attach {text : Type}
    (loads : text → option (list (dict string)))
    (base_dir : string) (path_join : string → string → string)
    (copy2 : string → string → bool) :
  (∀ fs path rs r,
     parse_bibtex_file loads fs path = Some rs → r ∈ rs →
     file_path r = Some path) ∧
  (∀ (h : heap) refs refs' h' l,
     resolve_duplicate_keys h refs = Some (refs', h') →
     file_path <$> h' !! l = file_path <$> h !! l) ∧
  (∀ (h : heap) project l src h',
     add_reference_file base_dir path_join copy2 h project l src = Ok h' →
     ∃ r, h !! l = Some r ∧
       h' !! l =
         Some (set_file_path
                 (Some (path_join (path_join base_dir (name project))
                                  (get_standardized_filename r))) r) ∧
       ∀ l', l' ≠ l → h' !! l' = h !! l').
Proof.
  split_and!.
  - intros fs path rs r Hparse Hr. unfold parse_bibtex_file in Hparse.
    destruct (fs path) as [contents|]; simpl in Hparse; [|done].
    destruct (loads contents) as [entries|]; simpl in Hparse; [|done].
    apply mapM_Some_1 in Hparse. apply list_elem_of_lookup_1 in Hr as [i Hi].
    destruct (Forall2_lookup_r _ _ _ _ _ Hparse Hi) as (e & _ & He).
    apply reference_of_entry_Some in He as (? & ? & _ & _ & _ & _ & ?). done.
  - intros h refs refs' h' l Hres.
    unfold resolve_duplicate_keys in Hres.
    destruct (find_duplicate_keys h refs) as [dups|]; simpl in Hres; [|done].
    injection Hres as _ <-. destruct dups; [done|].
    apply resolve_groups_file_path.
  - intros h project l src h' Hadd. unfold add_reference_file in Hadd.
    destruct (h !! l) as [r|] eqn:Hr; [|done].
    destruct (copy2 _ _); [|done]. injection Hadd as <-.
    exists r. split_and!; [done| |].
    + by rewrite list_lookup_alter_eq, Hr.
    + intros l' Hne. by apply list_lookup_alter_ne.
Qed.

Lemma file_path_after_parse_resolve_attach_witness :
  parse_bibtex_file Some one_entry_fs "refs.bib"
    = Some [mkReference "a" "article" [("year", "2020")] (Some "a")
                        (Some "refs.bib")] ∧
  file_path (mkReference "a" "article" [("year", "2020")] (Some "a")
                         (Some "refs.bib")) = Some "refs.bib".
Proof.
  split; [reflexivity|].
  apply (proj1 (file_path_after_parse_resolve_attach
                  Some "" (λ a b, a +:+ "/" +:+ b) (λ _ _, true))
               one_entry_fs "refs.bib" _ _ eq_refl).
  left.
Defined.

(** C9 as stated fails: the reference that parsing produces already has a
    [file_path], the path of the BibTeX file, before anything is
    attached. *)
Lemma parsed_reference_has_file_path :
  ∃ r, parse_bibtex_file Some one_entry_fs "refs.bib" = Some [r] ∧
       file_path r = Some "refs.bib" ∧ file_path r ≠ None.
Proof. eexists. split_and!; [reflexivity|reflexivity|done]. Qed.

(** ** Writing and reading back *)

Lemma dict_set_absent {V} k (v : V) (d : dict V) :
  k ∉ dict_keys d → dict_set k v d = d ++ [(k, v)].
Proof.
  unfold dict_keys. induction d as [|[k0 v0] d IH]; simpl; [done|].
  intros Hk. apply not_elem_of_cons in Hk as [Hne Hk].
  destruct (String.eqb_spec k k0); [done|]. by rewrite IH.
Qed.

Lemma foldl_dict_set_wf (fs base : dict string) :
  dict_wf base →
  dict_wf (foldl (λ entry '(field, value), dict_set field value entry) base fs).
Proof.
  revert base. induction fs as [|[f v] fs IH]; intros base Hb; simpl; [done|].
  by apply IH, dict_set_wf.
Qed.

Lemma foldl_dict_set_get (fs base : dict string) n :
  dict_wf fs →
  dict_get n (foldl (λ entry '(field, value), dict_set field value entry) base fs)
  = match dict_get n fs with Some v => Some v | None => dict_get n base end.
Proof.
  revert base. induction fs as [|[f v] fs IH]; intros base Hwf; simpl; [done|].
  apply NoDup_cons in Hwf as [Hf Hwf]. rewrite IH by done.
  rewrite dict_get_set. destruct (String.eqb_spec n f) as [->|Hne]; [|done].
  simpl in Hf. apply dict_get_None in Hf. by rewrite Hf.
Qed.

Lemma entry_of_reference_wf r : dict_wf (entry_of_reference r).
Proof. apply foldl_dict_set_wf. by_decide. Qed.

Lemma entry_of_reference_get r n :
  dict_wf (fields r) → unreserved r →
  dict_get n (entry_of_reference r) =
    if String.eqb n "ID" then Some (key r)
    else if String.eqb n "ENTRYTYPE" then Some (entry_type r)
    else dict_get n (fields r).
Proof.
  intros Hwf [Hid Hty]. unfold entry_of_reference.
  rewrite foldl_dict_set_get by done. simpl.
  destruct (String.eqb_spec n "ID") as [->|?]; [by rewrite Hid|].
  destruct (String.eqb_spec n "ENTRYTYPE") as [->|?]; [by rewrite Hty|].
  by destruct (dict_get n (fields r)).
Qed.

Lemma foldl_dict_set_append (fs base : dict string) :
  dict_wf fs →
  (∀ n, n ∈ dict_keys fs → n ∉ dict_keys base) →
  foldl (λ entry '(field, value), dict_set field value entry) base fs
  = base ++ fs.
Proof.
  revert base. induction fs as [|[f v] fs IH]; intros base Hwf Hfresh; simpl.
  { by rewrite app_nil_r. }
  apply NoDup_cons in Hwf as [Hf Hwf].
  rewrite dict_set_absent by (apply Hfresh; left).
  rewrite IH, <-app_assoc; [done..|].
  intros n Hn. unfold dict_keys. rewrite fmap_app, elem_of_app.
  intros [Hin|Hin].
  - by apply (Hfresh n); [right|].
  - apply list_elem_of_singleton in Hin. simpl in Hin. by subst.
Qed.

(** The entry of a reference without reserved field names: the key, the
    entry type, then the fields in their order. *)
Lemma entry_of_reference_unreserved r :
  dict_wf (fields r) → unreserved r →
  entry_of_reference r
  = ("ID", key r) :: ("ENTRYTYPE", entry_type r) :: fields r.
Proof.
  intros Hwf [Hid Hty]. unfold entry_of_reference.
  rewrite foldl_dict_set_append; [done..|].
  apply dict_get_None in Hid. apply dict_get_None in Hty.
  intros n Hn. simpl. intros Hin.
  apply elem_of_cons in Hin as [->|Hin]; [done|].
  apply elem_of_cons in Hin as [->|Hin]; [done|].
  by apply elem_of_nil in Hin.
Qed.




(** ** Import into a project *)

Lemma resolve_duplicate_keys_total (h : heap) refs :
  allocated h refs → ∃ h', resolve_duplicate_keys h refs = Some (refs, h').
Proof.
  intros Hal. destruct (collect_keys_spec h refs Hal) as (km & Hkm & _).
  unfold resolve_duplicate_keys, find_duplicate_keys. rewrite Hkm. simpl. eauto.
Qed.

Lemma foldl_add_reference_name h news p :
  name (foldl (add_reference h) p news) = name p.
Proof.
  revert p. induction news as [|x news IH]; intros p; simpl; [done|].
  rewrite IH. unfold add_reference. by destruct (key_at h x).
Qed.

(** After the insertions a key is bound to the last inserted reference
    that has it, or to what it was bound to before. *)
Lemma foldl_add_reference_get h news p k :
  dict_get k (references (foldl (add_reference h) p news)) =
    match last (filter (has_key h k) news) with
    | Some l => Some l
    | None => dict_get k (references p)
    end.
Proof.
  revert p. induction news as [|x news IH]; intros p; simpl; [done|].
  rewrite IH, filter_cons. unfold add_reference.
  destruct (decide (has_key h k x)) as [Hx|Hx].
  - unfold has_key in Hx. rewrite Hx, last_cons. simpl.
    rewrite dict_get_set, String.eqb_refl.
    by destruct (last (filter (has_key h k) news)).
  - destruct (last (filter (has_key h k) news)); [done|].
    destruct (key_at h x) as [kx|] eqn:E; [|done]. simpl.
    rewrite dict_get_set. destruct (String.eqb_spec k kx) as [->|?]; [|done].
    by destruct Hx.
Qed.

(** Insertions under keys that are new and pairwise distinct extend the
    dictionary by these bindings, in order. *)
Lemma foldl_add_reference_append h news ks p :
  Forall2 (λ l k, key_at h l = Some k) news ks →
  NoDup ks →
  (∀ k, k ∈ ks → k ∉ dict_keys (references p)) →
  references (foldl (add_reference h) p news) = references p ++ zip ks news.
Proof.
  intros HF. revert p.
  induction HF as [|l k news ks Hk _ IH]; intros p Hnd Hfresh; simpl.
  { by rewrite app_nil_r. }
  apply NoDup_cons in Hnd as [Hk' Hnd].
  unfold add_reference at 2. rewrite Hk.
  rewrite IH; simpl; [|done|].
  - rewrite dict_set_absent by (apply Hfresh; left). by rewrite <-app_assoc.
  - intros k0 Hk0. rewrite dict_set_absent by (apply Hfresh; left).
    unfold dict_keys. rewrite fmap_app, elem_of_app. intros [Hin|Hin].
    + by apply (Hfresh k0); [right|].
    + apply list_elem_of_singleton in Hin. simpl in Hin. by subst.
Qed.

Lemma keys_of_references (h : heap) (P : string → Prop) (refs : list loc) :
  (∀ l, l ∈ refs → ∃ k, key_at h l = Some k ∧ P k) →
  ∃ ks, Forall2 (λ l k, key_at h l = Some k) refs ks ∧ Forall P ks.
Proof.
  induction refs as [|l refs IH]; intros Hall.
  { exists []. by split; constructor. }
  destruct (Hall l) as (k & Hk & HP); [left|].
  destruct IH as (ks & HF & HPs); [intros l' Hl'; apply Hall; by right|].
  exists (k :: ks). by split; constructor.
Qed.

Lemma keys_of_references_fmap (h : heap) (refs : list loc) ks :
  Forall2 (λ l k, key_at h l = Some k) refs ks →
  key_at h <$> refs = Some <$> ks.
Proof.
  induction 1 as [|l k refs ks Hk _ IH]; [done|].
  rewrite !fmap_cons. by rewrite Hk, IH.
Qed.

Lemma string_length_app (a b : string) :
  String.length (a +:+ b) = String.length a + String.length b.
Proof. induction a as [|x a IH]; simpl; [done|]. by rewrite IH. Qed.

Lemma string_app_inj_r (a b c : string) : a +:+ c = b +:+ c → a = b.
Proof.
  revert b. induction a as [|x a IH]; intros [|y b] Heq.
  - done.
  - apply (f_equal String.length) in Heq.
    rewrite !string_length_app in Heq. simpl in Heq. lia.
  - apply (f_equal String.length) in Heq.
    rewrite !string_length_app in Heq. simpl in Heq. lia.
  - rewrite !string_app_cons in Heq. injection Heq as -> Heq.
    by rewrite (IH b Heq).
Qed.

Lemma elem_of_new_references (h : heap) keys (refs : list loc) l :
  l ∈ filter (λ ref, is_new h keys ref) refs ↔
  l ∈ refs ∧ ∃ k, key_at h l = Some k ∧ k ∉ keys.
Proof.
  rewrite list_elem_of_filter. unfold is_new.
  destruct (key_at h l) as [k|]; simpl.
  - rewrite bool_decide_spec. split.
    + intros [? ?]. eauto.
    + intros (? & k' & [= <-] & ?). done.
  - split; [by intros [[] _]|]. by intros (_ & k & [=] & _).
Qed.

Lemma lookup_alloc (h parsed : heap) i :
  (h ++ parsed) !! (length h + i) = parsed !! i.
Proof. rewrite lookup_app_r by lia. f_equal. lia. Qed.

Lemma allocated_alloc (h parsed : heap) (refs : list loc) :
  allocated h refs →
  allocated (h ++ parsed) (refs ++ seq (length h) (length parsed)).
Proof.
  intros Hal. apply Forall_app. split.
  - eapply Forall_impl; [exact Hal|]. intros l [r Hr]. exists r.
    by apply lookup_app_l_Some.
  - apply Forall_seq. intros j Hj.
    replace j with (length h + (j - length h)) by lia.
    rewrite lookup_alloc. apply lookup_lt_is_Some. lia.
Qed.

Lemma earlier_lt h refs p l k :
  refs !! p = Some l → key_at h l = Some k →
  earlier h refs p k < length (group h k refs).
Proof.
  intros Hp Hk. eapply lookup_lt_Some. by apply group_position.
Qed.

Lemma keyed_values_keys (h : heap) (d : dict loc) :
  (∀ k l, (k, l) ∈ d → key_at h l = Some k) →
  key_at h <$> dict_values d = Some <$> dict_keys d.
Proof.
  unfold dict_values, dict_keys.
  induction d as [|[k l] d IH]; intros Hd; [done|]. rewrite !fmap_cons.
  f_equal; [apply Hd; left|]. apply IH. intros k' l' Hin. apply Hd. by right.
Qed.

(** C2, as the code has it. With an active project and a file that
    parses, the import puts the parsed references in fresh objects after
    the project's own, resolves duplicates over that combined sequence,
    and returns, in order, the resolved references whose key is not a key
    of the project dictionary as it was. They are assigned under their keys
    in that order: a key ends bound to the last returned reference that has
    it, and the keys the project had keep their references. When the
    returned references have pairwise distinct keys, the dictionary
    afterwards is the dictionary as it was followed by the returned
    references under their keys, so exactly they are inserted.
    Consequently, when the project binds every key to a reference of that
    key, the keys of the file are pairwise distinct and all in the project,
    and no key of the file followed by [_1] is in the project, the import
    renames every incoming reference to its key followed by [_1], with
    [original_key] the key of the file, returns exactly the incoming
    references, and appends them to the dictionary under the suffixed
    keys. *)
Theorem import_bibtex_inserts_new {text : Type}
    (loads : text → option (list (dict string)))
    (fs : string → option text) (h : heap) (project : Project)
    (path : string) (parsed : list Reference) :
  parse_bibtex_file loads fs path = Some parsed →
  allocated h (dict_values (references project)) →
  let incoming := seq (length h) (length parsed) in
  let combined := dict_values (references project) ++ incoming in
  let existing_keys := dict_keys (references project) in
  ∃ new h' project',
    import_bibtex loads fs h (Some project) path = Ok (new, h', project') ∧
    resolve_duplicate_keys (h ++ parsed) combined = Some (combined, h') ∧
    new `sublist_of` combined ∧
    (∀ l, l ∈ new ↔
          l ∈ combined ∧ ∃ k, key_at h' l = Some k ∧ k ∉ existing_keys) ∧
    name project' = name project ∧
    (∀ k, dict_get k (references project') =
            match last (filter (has_key h' k) new) with
            | Some l => Some l
            | None => dict_get k (references project)
            end) ∧
    (∀ k, k ∈ existing_keys →
          dict_get k (references project') = dict_get k (references project)) ∧
    (NoDup (key_at h' <$> new) →
     ∃ ks, Forall2 (λ l k, key_at h' l = Some k) new ks ∧
           references project' = references project ++ zip ks new) ∧
    (project_keyed h project →
     NoDup (key <$> parsed) →
     (∀ r, r ∈ parsed →
           key r ∈ existing_keys ∧ key r +:+ "_1" ∉ existing_keys) →
     new = incoming ∧
     (∀ j r, parsed !! j = Some r →
        h' !! (length h + j) =
          Some (mkReference (key r +:+ "_1") (entry_type r) (fields r)
                            (Some (key r)) (file_path r))) ∧
     references project'
       = references project
           ++ zip ((λ r, key r +:+ "_1") <$> parsed) incoming).
Proof.
  intros Hparse Hal incoming combined existing_keys.
  pose proof (allocated_alloc h parsed _ Hal) as Hal0.
  destruct (resolve_duplicate_keys_total (h ++ parsed) combined Hal0)
    as [h' Hres].
  set (new := filter (λ ref, is_new h' existing_keys ref) combined).
  exists new, h', (foldl (add_reference h') project new).
  assert (∀ l, l ∈ new ↔
            l ∈ combined ∧ ∃ k, key_at h' l = Some k ∧ k ∉ existing_keys)
    as Hnew by (intros l; apply elem_of_new_references).
  split_and!.
  - unfold import_bibtex, alloc. rewrite Hparse.
    fold incoming. fold combined. by rewrite Hres.
  - done.
  - apply sublist_filter.
  - done.
  - apply foldl_add_reference_name.
  - intros k. apply foldl_add_reference_get.
  - intros k Hk. rewrite foldl_add_reference_get.
    assert (filter (has_key h' k) new = []) as ->; [|done].
    apply filter_none, Forall_forall. intros l Hl Hkl.
    apply Hnew in Hl as (_ & k' & Hk' & Hnotin).
    unfold has_key in Hkl. congruence.
  - intros Hnd.
    destruct (keys_of_references h' (λ k, k ∉ existing_keys) new)
      as (ks & HF & Hfresh).
    { intros l Hl. by apply Hnew in Hl as [_ ?]. }
    exists ks. split; [done|].
    apply foldl_add_reference_append; [done| |].
    + rewrite (keys_of_references_fmap _ _ _ HF) in Hnd.
      by apply NoDup_fmap_1 in Hnd.
    + intros k Hk. by apply (proj1 (Forall_forall _ _) Hfresh).
  - intros [Hwf Hkeyed] Hnd Hkeys.
    set (h0 := h ++ parsed) in *. set (d := references project) in *.
    assert (∀ k l, (k, l) ∈ d → key_at h0 l = Some k) as Hd0.
    { intros k l Hin.
      pose proof (Hkeyed k l (elem_of_dict_get _ _ _ Hwf Hin)) as Hk.
      unfold key_at in *. destruct (h !! l) as [r|] eqn:Hr; [|done].
      unfold h0. by rewrite (lookup_app_l_Some _ _ _ _ Hr). }
    assert (NoDup (key_at h0 <$> dict_values d)) as Hkv.
    { rewrite (keyed_values_keys h0 d Hd0). by apply (NoDup_fmap_2 Some). }
    assert (NoDup (dict_values d)) as Hvnd by (by apply NoDup_fmap_1 in Hkv).
    assert (NoDup combined) as Hcnd.
    { apply NoDup_app. split_and!; [done| |apply NoDup_seq].
      intros l Hl Hl'. apply elem_of_seq in Hl'.
      pose proof (proj1 (Forall_forall _ _) Hal l Hl) as Hs.
      apply lookup_lt_is_Some in Hs. lia. }
    destruct (resolve_duplicate_keys_lookup h0 combined Hcnd Hal0)
      as (h'' & Hres' & _ & _ & Hat).
    assert (h'' = h') as -> by congruence.
    assert (∀ l, l ∈ dict_values d →
              ∃ k, k ∈ existing_keys ∧ key_at h' l = Some k) as Hold.
    { intros l Hl. apply list_elem_of_lookup_1 in Hl as [p Hp].
      pose proof Hp as Hp'. unfold dict_values in Hp'.
      apply list_lookup_fmap_Some_1 in Hp' as ([k l'] & Hl' & Hdp).
      simpl in Hl'. subst l.
      assert ((k, l') ∈ d) as Hin by (by eapply list_elem_of_lookup_2).
      exists k. split; [apply list_elem_of_fmap; by exists (k, l')|].
      pose proof (Hd0 k l' Hin) as Hk.
      pose proof (earlier_lt h0 (dict_values d) p l' k Hp Hk) as Hlt.
      pose proof (group_length_NoDup h0 k (dict_values d) Hkv) as Hle.
      assert (earlier h0 combined p k = 0) as Heq.
      { unfold earlier, combined in *. rewrite take_app_le; [lia|].
        apply lookup_lt_Some in Hp. lia. }
      unfold key_at. rewrite (Hat p l' k); [|by apply lookup_app_l_Some|done].
      rewrite Heq. unfold key_at in Hk. by destruct (h0 !! l'). }
    assert (∀ j r, parsed !! j = Some r →
              h' !! (length h + j) = Some (rename_to (key r +:+ "_1") r))
      as Hinc.
    { intros j r Hj.
      assert (h0 !! (length h + j) = Some r) as Hr.
      { unfold h0. by rewrite lookup_alloc. }
      assert (key_at h0 (length h + j) = Some (key r)) as Hk.
      { unfold key_at. by rewrite Hr. }
      set (p := length (dict_values d) + j).
      assert (combined !! p = Some (length h + j)) as Hp.
      { unfold combined, p. rewrite lookup_app_r by lia.
        replace (length (dict_values d) + j - length (dict_values d))
          with j by lia.
        apply lookup_seq. split; [done|]. by apply lookup_lt_Some in Hj. }
      rewrite (Hat p _ (key r) Hp Hk), Hr. simpl. f_equal.
      assert (earlier h0 combined p (key r) = 1) as ->; [|done].
      unfold earlier, combined, p, group.
      rewrite take_app_add, filter_app, length_app.
      assert (filter (has_key h0 (key r)) (take j incoming) = []) as ->.
      { apply filter_none, Forall_forall. intros l Hl Hkl.
        apply elem_of_take in Hl as (i & Hi & Hlt).
        apply lookup_seq in Hi as [-> Hi].
        unfold has_key, key_at, h0 in Hkl. rewrite lookup_alloc in Hkl.
        destruct (parsed !! i) as [ri|] eqn:Hri; [|done].
        injection Hkl as Hkl.
        assert (i = j); [|lia].
        apply (NoDup_lookup (key <$> parsed) i j (key r) Hnd).
        - by rewrite list_lookup_fmap, Hri, <-Hkl.
        - by rewrite list_lookup_fmap, Hj. }
      simpl. rewrite Nat.add_0_r.
      pose proof (group_length_NoDup h0 (key r) (dict_values d) Hkv) as Hle.
      unfold group in Hle.
      destruct (Hkeys r) as [Hkr _]; [by eapply list_elem_of_lookup_2|].
      apply list_elem_of_fmap in Hkr as ([k l0] & Hkeq & Hin). simpl in Hkeq.
      subst k.
      assert (l0 ∈ filter (has_key h0 (key r)) (dict_values d)) as Hl0.
      { apply list_elem_of_filter. split; [by apply Hd0|].
        apply list_elem_of_fmap. by exists (key r, l0). }
      destruct (filter (has_key h0 (key r)) (dict_values d)) as [|? [|? ?]];
        [by apply elem_of_nil in Hl0|done|simpl in Hle; lia]. }
    assert (new = incoming) as Hnewinc; [|split_and!; [done|exact Hinc|]].
    2:{ rewrite Hnewinc. apply foldl_add_reference_append.
        - apply Forall2_same_length_lookup_2.
          { unfold incoming. by rewrite length_seq, length_fmap. }
          intros i l k Hl Hk. apply lookup_seq in Hl as [-> _].
          apply list_lookup_fmap_Some_1 in Hk as (r & -> & Hr).
          unfold key_at. by rewrite (Hinc i r Hr).
        - rewrite (list_fmap_compose key (λ k, k +:+ "_1")).
          apply NoDup_fmap_2; [|done].
          intros k1 k2. apply string_app_inj_r.
        - intros k Hk. apply list_elem_of_fmap in Hk as (r & -> & Hr).
          by apply Hkeys. }
    unfold new, combined. rewrite filter_app.
    assert (filter (λ ref, is_new h' existing_keys ref) (dict_values d) = [])
      as ->.
    { apply filter_none, Forall_forall. intros l Hl Hn.
      destruct (Hold l Hl) as (k & Hk & Hkl).
      unfold is_new in Hn. rewrite Hkl in Hn.
      apply bool_decide_unpack in Hn. done. }
    simpl. apply filter_all, Forall_seq. intros l Hl.
    assert (is_Some (parsed !! (l - length h))) as [r Hr].
    { apply lookup_lt_is_Some. lia. }
    replace l with (length h + (l - length h)) by lia.
    unfold is_new, key_at. rewrite (Hinc _ r Hr). simpl.
    apply bool_decide_pack. apply Hkeys. by eapply list_elem_of_lookup_2.
Qed.

Lemma import_bibtex_inserts_new_witness :
  ∃ h' project',
    import_bibtex Some two_entry_fs two_entry_heap (Some two_entry_project)
                  "refs.bib" = Ok ([2; 3], h', project') ∧
    key_at h' <$> [2; 3] = [Some "a_1"; Some "b_1"] ∧
    references project' = [("a", 0); ("b", 1); ("a_1", 2); ("b_1", 3)].
Proof.
  destruct (import_bibtex_inserts_new Some two_entry_fs two_entry_heap
              two_entry_project "refs.bib" two_entry_heap eq_refl)
    as (new & h' & p' & Himp & _ & _ & _ & _ & _ & _ & _ & Hsecond).
  - repeat constructor; eauto.
  - destruct Hsecond as (Hnew & Hren & Hrefs).
    + split; [by_decide|]. intros k l. simpl.
      destruct (String.eqb_spec k "a") as [->|?]; [by intros [= <-]|].
      destruct (String.eqb_spec k "b") as [->|?]; [by intros [= <-]|done].
    + by_decide.
    + intros r Hr. repeat (apply elem_of_cons in Hr as [->|Hr]; [split; by_decide|]).
      by apply elem_of_nil in Hr.
    + exists h', p'. rewrite Hnew in Himp.
      split_and!; [exact Himp| |exact Hrefs].
      pose proof (Hren 0 _ eq_refl) as H0. pose proof (Hren 1 _ eq_refl) as H1.
      change (length two_entry_heap + 0) with 2 in H0.
      change (length two_entry_heap + 1) with 3 in H1.
      simpl. unfold key_at. by rewrite H0, H1.
Defined.

(** C2 as stated fails in both parts. First, a file with the keys [a], [a]
    and [a_1] is imported into an empty project: the second entry is
    renamed to [a_1], all three references are returned, and the project
    keeps two, the third entry taking the place of the second under [a_1];
    what is returned is not what is inserted. Second, a file with the keys
    [a] and [a_1] is imported twice into an empty project: the first import
    keeps both keys, and in the second the incoming reference with key [a]
    is renamed to [a_1], a key the project already has, so that it is
    neither reported as new nor inserted. *)
Lemma import_bibtex_loses_colliding_entries :
  import_bibtex Some shadowing_fs [] (Some (mkProject "p" [] None)) "refs.bib"
    = Ok ([0; 1; 2],
          [mkReference "a" "article" [] (Some "a") (Some "refs.bib");
           mkReference "a_1" "misc" [] (Some "a") (Some "refs.bib");
           mkReference "a_1" "book" [] (Some "a_1") (Some "refs.bib")],
          mkProject "p" [("a", 0); ("a_1", 2)] None) ∧
  (1 ∈ [0; 1; 2]) ∧ (1 ∉ dict_values [("a", 0); ("a_1", 2)]) ∧
  ∃ new1 h1 p1 new2 h2 p2,
    import_bibtex Some colliding_fs [] (Some (mkProject "p" [] None))
                  "refs.bib" = Ok (new1, h1, p1) ∧
    dict_keys (references p1) = ["a"; "a_1"] ∧
    import_bibtex Some colliding_fs h1 (Some p1) "refs.bib"
      = Ok (new2, h2, p2) ∧
    h2 !! 2 = Some (mkReference "a_1" "article" [] (Some "a")
                                (Some "refs.bib")) ∧
    (2 ∉ new2) ∧ (2 ∉ dict_values (references p2)).
Proof.
  split_and!.
  - vm_compute. reflexivity.
  - by_decide.
  - by_decide.
  - do 6 eexists. split_and!.
    + vm_compute. reflexivity.
    + reflexivity.
    + vm_compute. reflexivity.
    + reflexivity.
    + by_decide.
    + by_decide.
Qed.

(** ** A remark on shared objects

    The theorems on resolution speak of sequences of distinct objects,
    which is what parsing and the project dictionary provide. When one
    object occurs several times in the sequence, every occurrence after
    the first renames that same object again. *)
Example resolve_duplicate_keys_shared_object :
  resolve_duplicate_keys [sample "k"] [0; 0; 0]
  = Some ([0; 0; 0],
          [mkReference "k_2" "article" [("title", "T")] (Some "k_1")
                       (Some "refs.bib")]).
Proof. vm_compute. reflexivity. Qed.

(** * Further properties *)

(** ** What [find_duplicate_keys] returns *)

Lemma group_nonempty h k refs l :
  l ∈ refs → key_at h l = Some k → group h k refs ≠ [].
Proof.
  intros Hl Hk Hnil.
  by eapply (filter_nil_not_elem_of (has_key h k)); [exact Hnil|exact Hk|].
Qed.

(** X1. On a sequence of allocated references the result is a dictionary
    with one item per key that two or more of them have, and the value of
    a key is the list of all references with that key, in the order of the
    sequence. *)
Theorem find_duplicate_keys_groups (h : heap) (refs : list loc) :
  allocated h refs →
  ∃ dups, find_duplicate_keys h refs = Some dups ∧ dict_wf dups ∧
    ∀ k v, dict_get k dups = Some v ↔ v = group h k refs ∧ 2 ≤ length v.
Proof.
  intros Hal. destruct (collect_keys_spec h refs Hal) as (km & Hkm & Hinv).
  set (dups := filter (λ kv : string * list loc, 1 < length kv.2) km).
  assert (dict_wf dups) as Hwf by apply filter_dict_wf, Hinv.
  exists dups. split_and!; [|done|].
  - unfold find_duplicate_keys. by rewrite Hkm.
  - intros k v. split.
    + intros Hget. apply dict_get_elem_of in Hget.
      apply list_elem_of_filter in Hget as [Hlen Hin]. simpl in Hlen.
      destruct (groups_inv_elem h refs km k v Hinv Hin) as [-> _].
      split; [done|lia].
    + intros [-> Hlen]. apply elem_of_dict_get; [done|].
      apply list_elem_of_filter. split; [simpl; lia|].
      apply dict_get_elem_of. rewrite (proj2 Hinv k).
      destruct (group h k refs); [simpl in Hlen; lia|done].
Qed.

Lemma find_duplicate_keys_groups_witness :
  ∃ dups,
    find_duplicate_keys [sample "k"; sample "x"; sample "k"] [0; 1; 2]
      = Some dups ∧
    dict_get "k" dups = Some [0; 2] ∧ dict_get "x" dups = None.
Proof.
  destruct (find_duplicate_keys_groups
              [sample "k"; sample "x"; sample "k"] [0; 1; 2])
    as (dups & Hfind & _ & _).
  - repeat constructor; eauto.
  - exists dups. split; [exact Hfind|].
    vm_compute in Hfind. injection Hfind as <-. split; reflexivity.
Defined.

Lemma group_length_cons h k l refs :
  length (group h k refs) ≤ length (group h k (l :: refs)).
Proof.
  unfold group. rewrite filter_cons.
  destruct (decide (has_key h k l)); simpl; lia.
Qed.

Lemma NoDup_keys_of_groups h refs :
  allocated h refs → (∀ k, length (group h k refs) ≤ 1) →
  NoDup (key_at h <$> refs).
Proof.
  induction refs as [|l refs IH]; intros Hal Hg; [apply NoDup_nil_2|].
  apply Forall_cons in Hal as [[r Hr] Hal]. rewrite fmap_cons.
  apply NoDup_cons. split.
  - intros Hin. apply list_elem_of_fmap in Hin as (l' & Hk & Hl').
    assert (key_at h l = Some (key r)) as Hkl by (unfold key_at; by rewrite Hr).
    specialize (Hg (key r)). unfold group in Hg.
    rewrite filter_cons_True in Hg by done. simpl in Hg.
    assert (filter (has_key h (key r)) refs = []) as Hnil.
    { destruct (filter (has_key h (key r)) refs); [done|simpl in Hg; lia]. }
    eapply (filter_nil_not_elem_of (has_key h (key r))); [exact Hnil| |exact Hl'].
    unfold has_key. congruence.
  - apply IH; [done|]. intros k.
    pose proof (group_length_cons h k l refs). specialize (Hg k). lia.
Qed.

(** X2. On allocated references, no duplicate is reported exactly when
    the keys of the sequence are pairwise distinct. *)
Theorem find_duplicate_keys_none_iff (h : heap) (refs : list loc) :
  allocated h refs →
  (find_duplicate_keys h refs = Some [] ↔ NoDup (key_at h <$> refs)).
Proof.
  intros Hal. destruct (collect_keys_spec h refs Hal) as (km & Hkm & Hinv).
  unfold find_duplicate_keys. rewrite Hkm. simpl. split.
  - intros [= Hnil]. apply NoDup_keys_of_groups; [done|]. intros k.
    destruct (group h k refs) as [|l v] eqn:Hg; [simpl; lia|].
    assert ((k, group h k refs) ∈ km) as Hin.
    { apply dict_get_elem_of. rewrite (proj2 Hinv k). by rewrite Hg. }
    destruct (decide (1 < length (group h k refs))) as [Hlt|Hle].
    + exfalso.
      eapply (filter_nil_not_elem_of
                (λ kv : string * list loc, 1 < length kv.2));
        [exact Hnil| |exact Hin]. done.
    + rewrite Hg in Hle. lia.
  - intros Hnd. f_equal. apply filter_none, Forall_forall.
    intros [k v] Hin. simpl.
    destruct (groups_inv_elem h refs km k v Hinv Hin) as [-> _].
    pose proof (group_length_NoDup h k refs Hnd). lia.
Qed.

Lemma find_duplicate_keys_none_iff_witness :
  find_duplicate_keys [sample "a"; sample "b"] [0; 1] = Some [] ↔
  NoDup (key_at [sample "a"; sample "b"] <$> [0; 1]).
Proof.
  apply find_duplicate_keys_none_iff. repeat constructor; eauto.
Defined.

(** ** What resolution leaves alone *)

Lemma rename_dups_contents k i dups (h : heap) l r :
  h !! l = Some r →
  ∃ r', rename_dups k i dups h !! l = Some r' ∧ same_contents r r'.
Proof.
  revert i h r. induction dups as [|ref dups IH]; intros i h r Hr; simpl.
  - exists r. by split.
  - destruct (0 <? i); [|by apply IH].
    destruct (decide (ref = l)) as [->|Hne].
    + destruct (IH (S i)
                  (alter (rename_to (k +:+ "_" +:+ PyStr.of_nat i)) l h)
                  (rename_to (k +:+ "_" +:+ PyStr.of_nat i) r))
        as (r' & Hr' & Hc).
      { by rewrite list_lookup_alter_eq, Hr. }
      exists r'. split; [done|]. destruct Hc as (? & ? & ?). by split_and!.
    + apply IH. by rewrite list_lookup_alter_ne.
Qed.

Lemma resolve_groups_contents (gs : dict (list loc)) (h : heap) l r :
  h !! l = Some r →
  ∃ r', resolve_groups gs h !! l = Some r' ∧ same_contents r r'.
Proof.
  revert h r. induction gs as [|[k dups] gs IH]; intros h r Hr; simpl.
  - exists r. by split.
  - destruct (rename_dups_contents k 0 dups h l r Hr) as (r1 & Hr1 & Hc1).
    destruct (IH _ _ Hr1) as (r2 & Hr2 & Hc2). exists r2. split; [done|].
    destruct Hc1 as (? & ? & ?), Hc2 as (? & ? & ?).
    split_and!; congruence.
Qed.

Lemma rename_dups_length k i dups (h : heap) :
  length (rename_dups k i dups h) = length h.
Proof.
  revert i h. induction dups as [|ref dups IH]; intros i h; simpl; [done|].
  rewrite IH. destruct (0 <? i); [apply length_alter|done].
Qed.

Lemma resolve_groups_length (gs : dict (list loc)) (h : heap) :
  length (resolve_groups gs h) = length h.
Proof.
  revert h. induction gs as [|[k dups] gs IH]; intros h; simpl; [done|].
  by rewrite IH, rename_dups_length.
Qed.

(** X3. Whatever the sequence, resolution returns the sequence it was
    given, keeps the store at its size, and changes no entry type, no
    fields and no file path: only keys and original keys are written. *)
Theorem resolve_duplicate_keys_keeps_contents (h : heap) (refs refs' : list loc)
    (h' : heap) :
  resolve_duplicate_keys h refs = Some (refs', h') →
  refs' = refs ∧ length h' = length h ∧
  ∀ l r, h !! l = Some r →
    ∃ r', h' !! l = Some r' ∧ entry_type r' = entry_type r ∧
          fields r' = fields r ∧ file_path r' = file_path r.
Proof.
  unfold resolve_duplicate_keys.
  destruct (find_duplicate_keys h refs) as [dups|]; simpl; [|done].
  intros [= <- <-]. split_and!; [done| |].
  - destruct dups; [done|]. apply resolve_groups_length.
  - intros l r Hr.
    assert (∃ r', resolve_groups dups h !! l = Some r' ∧ same_contents r r')
      as (r' & Hr' & Hc) by (by apply resolve_groups_contents).
    exists r'. split; [|exact Hc]. by destruct dups.
Qed.

Lemma resolve_duplicate_keys_keeps_contents_witness :
  ∃ r', [sample "k"; rename_to "k_1" (sample "k")] !! 1 = Some r' ∧
        fields r' = [("title", "T")].
Proof.
  destruct (resolve_duplicate_keys_keeps_contents
              [sample "k"; sample "k"] [0; 1] [0; 1]
              [sample "k"; rename_to "k_1" (sample "k")])
    as (_ & _ & Hc); [vm_compute; reflexivity|].
  destruct (Hc 1 (sample "k") eq_refl) as (r' & Hr' & _ & Hf & _).
  exists r'. by split.
Defined.

(** ** Keys after resolving one shared key *)

Lemma of_nat_inj i j : PyStr.of_nat i = PyStr.of_nat j → i = j.
Proof.
  unfold PyStr.of_nat. intros H. apply DecimalNat.Unsigned.to_uint_inj.
  assert (Some (Nat.to_uint i) = Some (Nat.to_uint j)) as [=]; [|done].
  by rewrite <-!NilEmpty.usu, H.
Qed.

Lemma renamed_key_inj k i j : renamed_key k i = renamed_key k j → i = j.
Proof.
  destruct i as [|i], j as [|j]; simpl; [done| | |].
  - intros H. rewrite <-(string_app_nil_r k) in H at 1.
    by apply (inj (String.append k)) in H.
  - intros H. rewrite <-(string_app_nil_r k) in H at 2.
    by apply (inj (String.append k)) in H.
  - intros H. apply (inj (String.append k)) in H.
    injection H as H. by apply of_nat_inj.
Qed.

(** X4. When all the references of a sequence of distinct objects have
    the same key, the keys after resolution are pairwise distinct. *)
Theorem resolve_duplicate_keys_same_key_distinct (h : heap) (refs : list loc)
    (k : string) :
  NoDup refs → allocated h refs → Forall (has_key h k) refs →
  ∃ h', resolve_duplicate_keys h refs = Some (refs, h') ∧
        NoDup (key_at h' <$> refs).
Proof.
  intros Hnd Hal Hall.
  destruct (resolve_duplicate_keys_lookup h refs Hnd Hal)
    as (h' & Hres & _ & _ & Hat).
  exists h'. split; [done|].
  assert (key_at h' <$> refs
          = (λ p, Some (renamed_key k p)) <$> seq 0 (length refs)) as ->.
  { apply list_eq. intros p. rewrite !list_lookup_fmap.
    destruct (refs !! p) as [l|] eqn:Hp; simpl.
    - pose proof (Forall_lookup_1 _ _ _ _ Hall Hp) as Hk.
      apply lookup_lt_Some in Hp as Hlt.
      rewrite lookup_seq_lt by done. simpl. f_equal.
      unfold key_at. rewrite (Hat p l k Hp Hk).
      unfold has_key, key_at in Hk. destruct (h !! l) as [r|]; [|done].
      injection Hk as Hk. simpl. f_equal.
      assert (earlier h refs p k = p) as ->.
      { unfold earlier, group. rewrite filter_all by (by apply Forall_take).
        rewrite length_take. lia. }
      by destruct p.
    - apply lookup_ge_None in Hp. by rewrite lookup_seq_ge. }
  apply NoDup_fmap_2_strong; [|apply NoDup_seq].
  intros p q _ _ [= H]. by apply renamed_key_inj in H.
Qed.

Lemma resolve_duplicate_keys_same_key_distinct_witness :
  ∃ h', resolve_duplicate_keys [sample "k"; sample "k"; sample "k"] [0; 1; 2]
        = Some ([0; 1; 2], h') ∧
        NoDup (key_at h' <$> [0; 1; 2]).
Proof.
  apply (resolve_duplicate_keys_same_key_distinct _ _ "k").
  - by_decide.
  - repeat constructor; eauto.
  - repeat constructor.
Defined.

(** ** The dictionary of a project *)

Lemma dict_get_del {V} k' k (d : dict V) :
  dict_wf d →
  dict_get k' (dict_del k d) = if String.eqb k' k then None else dict_get k' d.
Proof.
  unfold dict_wf, dict_keys. induction d as [|[k0 v0] d IH]; simpl; intros Hwf.
  - by destruct (String.eqb k' k).
  - apply NoDup_cons in Hwf as [Hk0 Hwf].
    destruct (String.eqb_spec k k0) as [->|Hne]; simpl.
    + destruct (String.eqb_spec k' k0) as [->|?]; [|done].
      by apply dict_get_None.
    + rewrite IH by done. destruct (String.eqb_spec k' k0) as [->|?]; [|done].
      destruct (String.eqb_spec k0 k); congruence.
Qed.

Lemma dict_del_absent {V} k (d : dict V) :
  k ∉ dict_keys d → dict_del k d = d.
Proof.
  unfold dict_keys. induction d as [|[k0 v0] d IH]; simpl; [done|].
  intros Hk. apply not_elem_of_cons in Hk as [Hne Hk].
  destruct (String.eqb_spec k k0); [done|]. by rewrite IH.
Qed.

Lemma dict_del_sublist {V} k (d : dict V) : dict_del k d `sublist_of` d.
Proof.
  induction d as [|[k0 v0] d IH]; simpl; [done|].
  destruct (String.eqb k k0); [by apply sublist_cons|by apply sublist_skip].
Qed.

Lemma dict_del_wf {V} k (d : dict V) : dict_wf d → dict_wf (dict_del k d).
Proof.
  unfold dict_wf, dict_keys. intros Hwf.
  eapply sublist_NoDup; [exact Hwf|]. apply fmap_sublist, dict_del_sublist.
Qed.

(** X5. Adding a reference binds its key to it, replacing whatever the
    key was bound to, and leaves every other key as it was; a project
    whose dictionary binds every key to a reference of that key stays
    so. *)
Theorem add_reference_lookup (h : heap) (project : Project) (ref : loc)
    (k : string) :
  key_at h ref = Some k →
  get_reference (add_reference h project ref) k = Some ref ∧
  (∀ k', k' ≠ k →
     get_reference (add_reference h project ref) k'
     = get_reference project k') ∧
  (project_keyed h project → project_keyed h (add_reference h project ref)).
Proof.
  intros Hk. unfold get_reference, add_reference. rewrite Hk. simpl.
  split_and!.
  - by rewrite dict_get_set, String.eqb_refl.
  - intros k' Hne. rewrite dict_get_set.
    by destruct (String.eqb_spec k' k).
  - intros [Hwf Hkeyed]. split; simpl; [by apply dict_set_wf|].
    intros k' l. rewrite dict_get_set.
    destruct (String.eqb_spec k' k) as [->|?]; [by intros [= <-]|].
    apply Hkeyed.
Qed.

Lemma add_reference_lookup_witness :
  get_reference
    (add_reference [sample "a"; sample "b"] (mkProject "p" [("a", 0)] None) 1)
    "b" = Some 1.
Proof.
  apply (add_reference_lookup [sample "a"; sample "b"] _ 1 "b"). reflexivity.
Defined.

(** X6. Removing a key leaves it unbound and every other key as it was;
    removing a key that is not in the project changes nothing. *)
Theorem remove_reference_lookup (project : Project) (k : string) :
  dict_wf (references project) →
  get_reference (remove_reference project k) k = None ∧
  (∀ k', k' ≠ k →
     get_reference (remove_reference project k) k'
     = get_reference project k') ∧
  dict_wf (references (remove_reference project k)) ∧
  (get_reference project k = None → remove_reference project k = project).
Proof.
  intros Hwf. unfold get_reference, remove_reference, dict_mem.
  destruct (dict_get k (references project)) as [l|] eqn:Hget; simpl.
  - split_and!; [| |by apply dict_del_wf|done].
    + by rewrite dict_get_del, String.eqb_refl.
    + intros k' Hne. rewrite dict_get_del by done.
      by destruct (String.eqb_spec k' k).
  - by split_and!.
Qed.

Lemma remove_reference_lookup_witness :
  get_reference (remove_reference (mkProject "p" [("a", 0); ("b", 1)] None) "a")
                "a" = None.
Proof.
  apply (remove_reference_lookup (mkProject "p" [("a", 0); ("b", 1)] None) "a").
  by_decide.
Defined.

(** ** From entries to references *)

Lemma dict_pop_None {V} k (d : dict V) :
  dict_pop k d = None ↔ dict_get k d = None.
Proof.
  induction d as [|[k0 v0] d IH]; simpl; [done|].
  destruct (String.eqb_spec k k0); [done|]. rewrite <-IH.
  destruct (dict_pop k d) as [[x r]|]; simpl; split; done.
Qed.

Lemma dict_pop_get_ne {V} k k' (d d' : dict V) v :
  dict_pop k d = Some (v, d') → k' ≠ k → dict_get k' d' = dict_get k' d.
Proof.
  revert d'. induction d as [|[k0 v0] d IH]; simpl; intros d'; [done|].
  destruct (String.eqb_spec k k0) as [->|Hne].
  - intros [= <- <-] Hk'. by destruct (String.eqb_spec k' k0).
  - destruct (dict_pop k d) as [[x r]|]; simpl; [|done].
    intros [= <- <-] Hk'. simpl. by rewrite (IH r).
Qed.

(** X7. The references made from well-formed entries come one per entry
    and in the order of the entries; each has the entry's [ID] as key and
    as original key, its [ENTRYTYPE] as entry type, the path of the file
    as file path, and as fields the other items of the entry, so that no
    field is named [ID] or [ENTRYTYPE]. *)
Theorem references_of_entries_fields (path : string)
    (entries : list (dict string)) (refs : list Reference) :
  Forall dict_wf entries →
  references_of_entries path entries = Some refs →
  Forall2 (λ e r,
             dict_get "ID" e = Some (key r) ∧
             dict_get "ENTRYTYPE" e = Some (entry_type r) ∧
             (∀ n, dict_get n (fields r) =
                   if String.eqb n "ID" || String.eqb n "ENTRYTYPE"
                   then None else dict_get n e) ∧
             dict_wf (fields r) ∧
             original_key r = Some (key r) ∧ file_path r = Some path)
          entries refs.
Proof.
  intros Hwf Hrefs. apply mapM_Some_1 in Hrefs.
  induction Hrefs as [|e r entries refs He _ IH]; [constructor|].
  apply Forall_cons in Hwf as [Hwfe Hwf]. constructor; [|by apply IH].
  apply reference_of_entry_Some in He as (e1 & e2 & H1 & H2 & <- & Ho & Hp).
  destruct (dict_pop_get _ _ _ _ Hwfe H1) as (Hid & Hwf1 & Hget1).
  destruct (dict_pop_get _ _ _ _ Hwf1 H2) as (Hty & Hwf2 & Hget2).
  split_and!; [done| |..|done|done|done].
  - by rewrite Hget1 in Hty.
  - intros n. rewrite Hget2, Hget1.
    destruct (String.eqb_spec n "ENTRYTYPE") as [->|?]; [done|].
    destruct (String.eqb_spec n "ID"); done.
Qed.

Lemma references_of_entries_fields_witness :
  dict_wf (fields (mkReference "a" "article" [("year", "2020")] (Some "a")
                               (Some "refs.bib"))) ∧
  file_path (mkReference "a" "article" [("year", "2020")] (Some "a")
                         (Some "refs.bib")) = Some "refs.bib".
Proof.
  pose proof (references_of_entries_fields "refs.bib"
                [[("ID", "a"); ("year", "2020"); ("ENTRYTYPE", "article")]]
                [mkReference "a" "article" [("year", "2020")] (Some "a")
                             (Some "refs.bib")]
                ltac:(repeat constructor; by_decide) eq_refl) as H.
  apply Forall2_cons in H as [(_ & _ & _ & Hwf & _ & Hp) _].
  split; [exact Hwf|exact Hp].
Defined.

Lemma reference_of_entry_None_iff (path : string) (e : dict string) :
  reference_of_entry path e = None ↔
  dict_get "ID" e = None ∨ dict_get "ENTRYTYPE" e = None.
Proof.
  unfold reference_of_entry.
  destruct (dict_pop "ID" e) as [[k e1]|] eqn:H1; simpl.
  - assert (dict_get "ID" e ≠ None) as Hid.
    { intros Hn. apply dict_pop_None in Hn. congruence. }
    rewrite <-(dict_pop_get_ne "ID" "ENTRYTYPE" e e1 k H1) by done.
    destruct (dict_pop "ENTRYTYPE" e1) as [[t e2]|] eqn:H2; simpl.
    + assert (dict_get "ENTRYTYPE" e1 ≠ None) as Hty.
      { intros Hn. apply dict_pop_None in Hn. congruence. }
      split; [done|]. by intros [?|?].
    + apply dict_pop_None in H2. split; [by right|done].
  - apply dict_pop_None in H1. split; [by left|done].
Qed.

(** X8. Making the references fails exactly when some entry has no [ID]
    or no [ENTRYTYPE]. *)
Theorem references_of_entries_None_iff (path : string)
    (entries : list (dict string)) :
  references_of_entries path entries = None ↔
  Exists (λ e, dict_get "ID" e = None ∨ dict_get "ENTRYTYPE" e = None) entries.
Proof.
  unfold references_of_entries. rewrite mapM_None, !Exists_exists.
  split; intros (e & He & H); exists e; (split; [done|]);
    by apply (reference_of_entry_None_iff path e).
Qed.

(** ** Merging files *)

Lemma fresh_group_length (h rs : heap) k m :
  m ≤ length rs →
  length (filter (has_key (h ++ rs) k) (seq (length h) m))
  = length (filter (λ r, key r = k) (take m rs)).
Proof.
  induction m as [|m IH]; intros Hm; [done|].
  destruct (lookup_lt_is_Some_2 rs m) as [r Hr]; [lia|].
  rewrite seq_S, (take_S_r _ _ _ Hr), !filter_app, !length_app, IH by lia.
  f_equal. rewrite (filter_singleton _ _ []), (filter_singleton _ r []).
  assert (has_key (h ++ rs) k (length h + m) ↔ key r = k) as Hiff.
  { unfold has_key, key_at. rewrite lookup_alloc, Hr. simpl.
    split; [by intros [= ?]|by intros ->]. }
  destruct (decide (has_key (h ++ rs) k (length h + m))) as [Hk|Hk];
    destruct (decide (key r = k)) as [Hk'|Hk']; try done; tauto.
Qed.

Lemma earlier_fresh (h rs : heap) p k :
  p ≤ length rs →
  earlier (h ++ rs) (seq (length h) (length rs)) p k = count_before rs p k.
Proof.
  intros Hp. unfold earlier, group, count_before.
  rewrite take_seq, Nat.min_l by done. by apply fresh_group_length.
Qed.

(** On fresh objects the store after resolution holds the values resolved
    one by one. *)
Lemma resolve_fresh (h rs : heap) :
  resolve_duplicate_keys (h ++ rs) (seq (length h) (length rs))
  = Some (seq (length h) (length rs), h ++ resolve_values rs).
Proof.
  destruct (resolve_duplicate_keys_lookup (h ++ rs)
              (seq (length h) (length rs)))
    as (h' & Hres & Hlen & Hout & Hat).
  { apply NoDup_seq. }
  { apply (allocated_alloc h rs []). constructor. }
  rewrite Hres. do 2 f_equal. apply list_eq. intros i.
  destruct (decide (i < length h)) as [Hi|Hi].
  - rewrite Hout by (rewrite elem_of_seq; lia).
    by rewrite !lookup_app_l.
  - replace i with (length h + (i - length h)) by lia.
    set (p := i - length h). rewrite (lookup_alloc h (resolve_values rs)).
    unfold resolve_values. rewrite list_lookup_imap.
    destruct (rs !! p) as [r|] eqn:Hr; simpl.
    + apply lookup_lt_Some in Hr as Hlt.
      assert ((h ++ rs) !! (length h + p) = Some r) as Hr0
        by (by rewrite lookup_alloc).
      rewrite (Hat p (length h + p) (key r)), Hr0; simpl.
      * by rewrite earlier_fresh by lia.
      * by apply lookup_seq_lt.
      * unfold key_at. by rewrite Hr0.
    + apply lookup_ge_None in Hr. apply lookup_ge_None.
      rewrite Hlen, length_app. lia.
Qed.

Lemma deref_seq (H rs : heap) a :
  (∀ j r, rs !! j = Some r → H !! (a + j) = Some r) →
  mapM (λ l, H !! l) (seq a (length rs)) = Some rs.
Proof.
  revert a. induction rs as [|r rs IH]; intros a Hrs; [done|]. simpl.
  rewrite <-(Nat.add_0_r a) at 1. rewrite (Hrs 0 r eq_refl). simpl.
  rewrite (IH (S a)); [done|]. intros j r' Hj.
  replace (S a + j) with (a + S j) by lia. by apply Hrs.
Qed.

Lemma merge_bibtex_files_steps {text : Type}
    (loads : text → option (list (dict string)))
    (dumps : list (dict string) → text) (fs : string → option text)
    (h : heap) (file_paths : list string) (output_path : string) :
  merge_bibtex_files loads dumps fs h file_paths output_path =
    match mapM (parse_bibtex_file loads fs) file_paths with
    | Some parsed =>
        Ok (h ++ resolve_values (concat parsed),
            write_bibtex_file dumps (resolve_values (concat parsed))
                              output_path fs)
    | None => Raise ParseError
    end.
Proof.
  unfold merge_bibtex_files.
  destruct (mapM (parse_bibtex_file loads fs) file_paths) as [parsed|];
    [|done].
  unfold alloc. rewrite resolve_fresh. unfold deref.
  assert (length (concat parsed) = length (resolve_values (concat parsed)))
    as Hlen by (unfold resolve_values; by rewrite length_imap).
  rewrite Hlen, deref_seq; [done|].
  intros j r Hj. by rewrite lookup_alloc.
Qed.

(** The references parsed from well-formed entries have well-formed
    fields, none named [ID] or [ENTRYTYPE]. *)
Lemma parse_bibtex_file_unreserved {text : Type}
    (loads : text → option (list (dict string)))
    (fs : string → option text) (path : string) (rs : list Reference) :
  (∀ t es, fs path = Some t → loads t = Some es → Forall dict_wf es) →
  parse_bibtex_file loads fs path = Some rs →
  Forall (λ r, dict_wf (fields r) ∧ unreserved r) rs.
Proof.
  intros Hlib. unfold parse_bibtex_file.
  destruct (fs path) as [t|]; simpl; [|done].
  destruct (loads t) as [es|] eqn:Hes; simpl; [|done].
  pose proof (Hlib t es eq_refl Hes) as Hwf. clear Hlib Hes.
  unfold references_of_entries. intros Hrs. apply mapM_Some_1 in Hrs.
  induction Hrs as [|e r es rs He _ IH]; [constructor|].
  apply Forall_cons in Hwf as [Hwfe Hwf]. constructor; [|by apply IH].
  apply reference_of_entry_Some in He as (e1 & e2 & H1 & H2 & <- & _ & _).
  destruct (dict_pop_get _ _ _ _ Hwfe H1) as (_ & Hwf1 & Hget1).
  destruct (dict_pop_get _ _ _ _ Hwf1 H2) as (_ & Hwf2 & Hget2).
  split; [done|]. split.
  - by rewrite Hget2, Hget1.
  - by rewrite Hget2.
Qed.

(** X9. Merging fails, and writes nothing, when a source does not parse.
    Otherwise, with sources whose entries are well formed, it takes the
    parsed references of all sources in the order listed and gives each
    the key it had when no earlier one has that key, and otherwise that
    key, an underscore and the number of earlier ones in decimal, with
    the old key as original key; the output file is written with one entry
    for each, in that order: the new key under [ID], the entry type under
    [ENTRYTYPE], then the fields. No other file changes. *)
Theorem merge_bibtex_files_result {text : Type}
    (loads : text → option (list (dict string)))
    (dumps : list (dict string) → text) (fs : string → option text)
    (h : heap) (file_paths : list string) (output_path : string) :
  (∀ p t es, p ∈ file_paths → fs p = Some t → loads t = Some es →
             Forall dict_wf es) →
  match mapM (parse_bibtex_file loads fs) file_paths with
  | None =>
      merge_bibtex_files loads dumps fs h file_paths output_path
      = Raise ParseError
  | Some parsed =>
      let rs := concat parsed in
      let new_key (p : nat) (r : Reference) : string :=
        match count_before rs p (key r) with
        | 0 => key r
        | S _ as j => key r +:+ "_" +:+ PyStr.of_nat j
        end in
      merge_bibtex_files loads dumps fs h file_paths output_path
      = Ok (h ++ imap (λ p r,
                         match count_before rs p (key r) with
                         | 0 => r
                         | S _ =>
                             mkReference (new_key p r) (entry_type r)
                                         (fields r) (Some (key r))
                                         (file_path r)
                         end) rs,
            λ p, if String.eqb p output_path
                 then Some (dumps (imap (λ p r,
                                           ("ID", new_key p r)
                                           :: ("ENTRYTYPE", entry_type r)
                                           :: fields r) rs))
                 else fs p)
  end.
Proof.
  intros Hlib. rewrite merge_bibtex_files_steps.
  destruct (mapM (parse_bibtex_file loads fs) file_paths) as [parsed|] eqn:Hm;
    [|done].
  cbv zeta.
  assert (Forall (λ r, dict_wf (fields r) ∧ unreserved r) (concat parsed))
    as Hrs.
  { apply Forall_concat, Forall_forall. intros rs Hin.
    apply mapM_Some_1 in Hm.
    apply list_elem_of_lookup_1 in Hin as [i Hi].
    destruct (Forall2_lookup_r _ _ _ _ _ Hm Hi) as (p & Hp & Hparse).
    apply (parse_bibtex_file_unreserved loads fs p); [|done].
    intros t es. apply Hlib. by eapply list_elem_of_lookup_2. }
  unfold write_bibtex_file, fs_write.
  match goal with
  | |- context [dumps (imap ?f ?l)] =>
      assert (entry_of_reference <$> resolve_values (concat parsed)
              = imap f l) as ->
  end.
  { unfold resolve_values. rewrite fmap_imap. apply imap_ext.
    intros i r Hr. simpl. unfold resolved.
    destruct (proj1 (Forall_forall _ _) Hrs r) as [Hwf Hun].
    { by eapply list_elem_of_lookup_2. }
    destruct (count_before (concat parsed) i (key r)).
    - by apply entry_of_reference_unreserved.
    - by apply (entry_of_reference_unreserved (rename_to _ r)). }
  do 3 f_equal. unfold resolve_values. apply imap_ext. intros i r _.
  unfold resolved. by destruct (count_before (concat parsed) i (key r)).
Qed.

(** The scenario of the specification: two files with an entry [a1] each
    are merged into a file with an entry [a1] and an entry [a1_1]. *)
Lemma merge_bibtex_files_result_witness :
  ∃ h' fs',
    merge_bibtex_files Some (λ es, es) merge_fs [] ["one.bib"; "two.bib"]
                       "out.bib" = Ok (h', fs') ∧
    h' = [mkReference "a1" "article" [("year", "1")] (Some "a1")
                      (Some "one.bib");
          mkReference "a1_1" "book" [("year", "2")] (Some "a1")
                      (Some "two.bib")] ∧
    fs' "out.bib"
    = Some [[("ID", "a1"); ("ENTRYTYPE", "article"); ("year", "1")];
            [("ID", "a1_1"); ("ENTRYTYPE", "book"); ("year", "2")]] ∧
    fs' "one.bib" = merge_fs "one.bib".
Proof.
  pose proof (merge_bibtex_files_result
                Some (λ es, es) merge_fs [] ["one.bib"; "two.bib"] "out.bib")
    as H.
  do 2 eexists. split; [apply H|by split_and!].
  intros p t es Hp Hfs [= <-].
  repeat (apply elem_of_cons in Hp as [->|Hp];
          [injection Hfs as <-; repeat constructor; by_decide|]).
  by apply elem_of_nil in Hp.
Defined.

(** ** What an import keeps *)

Lemma keyed_values_NoDup (h parsed : heap) (project : Project) :
  project_keyed h project →
  allocated h (dict_values (references project)) →
  (∀ k l, (k, l) ∈ references project → key_at (h ++ parsed) l = Some k) ∧
  NoDup (key_at (h ++ parsed) <$> dict_values (references project)) ∧
  NoDup (dict_values (references project) ++ seq (length h) (length parsed)).
Proof.
  intros [Hwf Hkeyed] Hal.
  assert (∀ k l, (k, l) ∈ references project →
            key_at (h ++ parsed) l = Some k) as Hd0.
  { intros k l Hin.
    pose proof (Hkeyed k l (elem_of_dict_get _ _ _ Hwf Hin)) as Hk.
    unfold key_at in *. destruct (h !! l) as [r|] eqn:Hr; [|done].
    by rewrite (lookup_app_l_Some _ _ _ _ Hr). }
  assert (NoDup (key_at (h ++ parsed) <$> dict_values (references project)))
    as Hkv.
  { rewrite (keyed_values_keys _ _ Hd0). by apply (NoDup_fmap_2 Some). }
  split_and!; [done..|].
  apply NoDup_app. split_and!; [by apply NoDup_fmap_1 in Hkv| |apply NoDup_seq].
  intros l Hl Hl'. apply elem_of_seq in Hl'.
  pose proof (proj1 (Forall_forall _ _) Hal l Hl) as Hs.
  apply lookup_lt_is_Some in Hs. lia.
Qed.

(** The objects that were in the store before an import are not changed
    by the resolution it runs. *)
Lemma import_old_untouched (h parsed : heap) (project : Project) refs' h' :
  project_keyed h project →
  allocated h (dict_values (references project)) →
  resolve_duplicate_keys
    (h ++ parsed)
    (dict_values (references project) ++ seq (length h) (length parsed))
    = Some (refs', h') →
  ∀ l r, h !! l = Some r → h' !! l = Some r.
Proof.
  intros Hkeyed Hal Hres l r Hr.
  destruct (keyed_values_NoDup h parsed project Hkeyed Hal)
    as (Hd0 & Hkv & Hcnd).
  destruct (resolve_duplicate_keys_lookup _ _ Hcnd
              (allocated_alloc h parsed _ Hal))
    as (h'' & Hres' & _ & Hout & Hat).
  assert (h'' = h') as -> by congruence.
  assert ((h ++ parsed) !! l = Some r) as Hr0 by (by apply lookup_app_l_Some).
  destruct (decide (l ∈ dict_values (references project))) as [Hl|Hl].
  - apply list_elem_of_lookup_1 in Hl as [p Hp].
    pose proof Hp as Hp'. unfold dict_values in Hp'.
    apply list_lookup_fmap_Some_1 in Hp' as ([k l'] & Hl' & Hdp).
    simpl in Hl'. subst l'.
    pose proof (Hd0 k l (list_elem_of_lookup_2 _ _ _ Hdp)) as Hk.
    pose proof (earlier_lt _ _ p l k Hp Hk) as Hlt.
    pose proof (group_length_NoDup _ k _ Hkv) as Hle.
    rewrite (Hat p l k); [|by apply lookup_app_l_Some|done].
    assert (earlier (h ++ parsed)
              (dict_values (references project)
               ++ seq (length h) (length parsed)) p k = 0) as ->.
    { unfold earlier in *. rewrite take_app_le; [lia|].
      apply lookup_lt_Some in Hp. lia. }
    by rewrite Hr0.
  - rewrite Hout; [done|]. apply not_elem_of_app. split; [done|].
    rewrite elem_of_seq. apply lookup_lt_Some in Hr. lia.
Qed.

Lemma foldl_add_reference_wf h news p :
  dict_wf (references p) →
  dict_wf (references (foldl (add_reference h) p news)).
Proof.
  revert p. induction news as [|x news IH]; intros p Hwf; simpl; [done|].
  apply IH. unfold add_reference. destruct (key_at h x); [|done].
  by apply dict_set_wf.
Qed.

(** X10. An import into a project whose dictionary binds every key to an
    allocated reference of that key leaves the project in that state, and
    changes none of the objects that existed before. *)
Theorem import_bibtex_keeps_project {text : Type}
    (loads : text → option (list (dict string)))
    (fs : string → option text) (h : heap) (project : Project)
    (path : string) (new : list loc) (h' : heap) (project' : Project) :
  project_keyed h project →
  allocated h (dict_values (references project)) →
  import_bibtex loads fs h (Some project) path = Ok (new, h', project') →
  project_keyed h' project' ∧
  allocated h' (dict_values (references project')) ∧
  ∀ l r, h !! l = Some r → h' !! l = Some r.
Proof.
  intros Hkeyed Hal Himp. unfold import_bibtex, alloc in Himp.
  destruct (parse_bibtex_file loads fs path) as [parsed|]; [|done].
  destruct (resolve_duplicate_keys _ _) as [[res h1]|] eqn:Hres; [|done].
  injection Himp as <- <- <-.
  pose proof (import_old_untouched h parsed project res h1 Hkeyed Hal Hres)
    as Hold.
  assert (project_keyed h1
            (foldl (add_reference h1) project
               (filter (λ ref, is_new h1 (dict_keys (references project)) ref)
                       res))) as Hkeyed'.
  { destruct Hkeyed as [Hwf Hk]. split; [by apply foldl_add_reference_wf|].
    intros k l. rewrite foldl_add_reference_get.
    destruct (last _) as [l'|] eqn:Hlast.
    - intros [= <-]. apply last_Some in Hlast as [pre Hpre].
      assert (l' ∈ filter (has_key h1 k)
                (filter (λ ref, is_new h1 (dict_keys (references project)) ref)
                        res)) as Hin.
      { rewrite Hpre. apply elem_of_app. right. left. }
      by apply list_elem_of_filter in Hin as [? _].
    - intros Hget. specialize (Hk k l Hget). unfold key_at in *.
      destruct (h !! l) as [r|] eqn:Hr; [|done].
      by rewrite (Hold l r Hr). }
  split_and!; [done| |done].
  apply Forall_forall. intros l Hl.
  apply list_elem_of_fmap in Hl as ([k l'] & -> & Hin). simpl.
  destruct Hkeyed' as [Hwf' Hk'].
  specialize (Hk' k l' (elem_of_dict_get _ _ _ Hwf' Hin)).
  unfold key_at in Hk'. by destruct (h1 !! l').
Qed.

Lemma import_bibtex_keeps_project_witness :
  ∃ new h' project',
    import_bibtex Some two_entry_fs two_entry_heap (Some two_entry_project)
                  "refs.bib" = Ok (new, h', project') ∧
    project_keyed h' project'.
Proof.
  destruct (import_bibtex Some two_entry_fs two_entry_heap
              (Some two_entry_project) "refs.bib")
    as [[[new h'] project']|] eqn:Himp; [|by vm_compute in Himp].
  exists new, h', project'. split; [done|].
  apply (import_bibtex_keeps_project Some two_entry_fs two_entry_heap
           two_entry_project "refs.bib" new h' project'); [| |exact Himp].
  - split; [by_decide|]. intros k l. simpl.
    destruct (String.eqb_spec k "a") as [->|?]; [by intros [= <-]|].
    destruct (String.eqb_spec k "b") as [->|?]; [by intros [= <-]|done].
  - repeat constructor; eauto.
Defined.

(** ** Importing keys the project does not have *)

Lemma foldl_add_reference_fresh (H : heap) (rs : list Reference) a n d f :
  (∀ j r, rs !! j = Some r → H !! (a + j) = Some r) →
  NoDup (key <$> rs) →
  (∀ r, r ∈ rs → key r ∉ dict_keys d) →
  foldl (add_reference H) (mkProject n d f) (seq a (length rs))
  = mkProject n (d ++ zip (key <$> rs) (seq a (length rs))) f.
Proof.
  revert a d. induction rs as [|r rs IH]; intros a d HH Hnd Hd; simpl.
  - by rewrite app_nil_r.
  - rewrite fmap_cons in Hnd. apply NoDup_cons in Hnd as [Hr Hnd].
    unfold add_reference at 2. unfold key_at.
    rewrite <-(Nat.add_0_r a) at 1. rewrite (HH 0 r eq_refl). simpl.
    rewrite dict_set_absent by (apply Hd; left).
    rewrite IH; [by rewrite <-app_assoc|..|done|].
    + intros j r' Hj. replace (S a + j) with (a + S j) by lia. by apply HH.
    + intros r' Hr'. unfold dict_keys. rewrite fmap_app.
      apply not_elem_of_app. split; [apply Hd; by right|].
      simpl. intros Hin. apply list_elem_of_singleton in Hin.
      apply Hr. rewrite <-Hin. by apply list_elem_of_fmap_2.
Qed.

(** X11. When the keys of the file are pairwise distinct and none is a
    key of the project, the import renames nothing: the parsed references
    become the new objects as parsed, all of them are returned, and the
    project dictionary gets each of them under its key, after the items
    it had. *)
Theorem import_bibtex_fresh_keys {text : Type}
    (loads : text → option (list (dict string)))
    (fs : string → option text) (h : heap) (project : Project)
    (path : string) (parsed : list Reference) :
  project_keyed h project →
  allocated h (dict_values (references project)) →
  parse_bibtex_file loads fs path = Some parsed →
  NoDup (key <$> parsed) →
  (∀ r, r ∈ parsed → key r ∉ dict_keys (references project)) →
  import_bibtex loads fs h (Some project) path =
    Ok (seq (length h) (length parsed), h ++ parsed,
        mkProject (name project)
          (references project
           ++ zip (key <$> parsed) (seq (length h) (length parsed)))
          (project_file_path project)).
Proof.
  intros Hkeyed Hal Hparse Hnd Hfresh.
  destruct (keyed_values_NoDup h parsed project Hkeyed Hal)
    as (Hd0 & Hkv & Hcnd).
  set (h0 := h ++ parsed) in *. set (vals := dict_values (references project)) in *.
  set (incoming := seq (length h) (length parsed)) in *.
  assert (key_at h0 <$> incoming = Some ∘ key <$> parsed) as Hinc.
  { apply list_eq. intros j. rewrite !list_lookup_fmap. unfold incoming.
    destruct (parsed !! j) as [r|] eqn:Hj; simpl.
    - apply lookup_lt_Some in Hj as Hlt. rewrite lookup_seq_lt by done. simpl.
      unfold key_at, h0. by rewrite lookup_alloc, Hj.
    - apply lookup_ge_None in Hj. by rewrite lookup_seq_ge. }
  assert (NoDup (key_at h0 <$> vals ++ incoming)) as Hknd.
  { rewrite fmap_app. apply NoDup_app. split_and!; [done| |].
    - intros ok Hok Hok'. rewrite Hinc in Hok'.
      apply list_elem_of_fmap in Hok' as (r & -> & Hr).
      apply list_elem_of_fmap in Hok as (l & Hk & Hl).
      apply list_elem_of_fmap in Hl as ([k l'] & -> & Hin). simpl in *.
      rewrite (Hd0 k l' Hin) in Hk. injection Hk as Hk.
      apply (Hfresh r Hr). rewrite Hk. apply list_elem_of_fmap.
      by exists (k, l').
    - rewrite Hinc, list_fmap_compose. by apply (NoDup_fmap_2 Some). }
  pose proof (allocated_alloc h parsed _ Hal) as Hal0.
  destruct (resolve_duplicate_keys_lookup h0 (vals ++ incoming) Hcnd Hal0)
    as (h' & Hres & Hlen & Hout & Hat).
  assert (h' = h0) as ->.
  { apply list_eq. intros l.
    destruct (decide (l ∈ vals ++ incoming)) as [Hl|Hl]; [|by apply Hout].
    apply list_elem_of_lookup_1 in Hl as [p Hp].
    destruct (proj1 (Forall_forall _ _) Hal0 l) as [r Hr];
      [by eapply list_elem_of_lookup_2|].
    fold h0 in Hr.
    assert (key_at h0 l = Some (key r)) as Hk by (unfold key_at; by rewrite Hr).
    pose proof (earlier_lt _ _ p l _ Hp Hk) as Hlt.
    pose proof (group_length_NoDup _ (key r) _ Hknd) as Hle.
    rewrite (Hat p l (key r) Hp Hk).
    replace (earlier h0 (vals ++ incoming) p (key r)) with 0 by lia.
    by rewrite Hr. }
  unfold import_bibtex, alloc. rewrite Hparse.
  fold h0. fold incoming. fold vals. rewrite Hres.
  assert (filter (λ ref, is_new h0 (dict_keys (references project)) ref)
                 (vals ++ incoming) = incoming) as ->.
  { rewrite filter_app.
    assert (filter (λ ref, is_new h0 (dict_keys (references project)) ref) vals
            = []) as ->.
    { apply filter_none, Forall_forall. intros l Hl Hn.
      apply list_elem_of_fmap in Hl as ([k l'] & -> & Hin). simpl in Hn.
      unfold is_new in Hn. rewrite (Hd0 k l' Hin) in Hn.
      apply bool_decide_unpack in Hn. apply Hn.
      apply list_elem_of_fmap. by exists (k, l'). }
    simpl. apply filter_all, Forall_forall. intros l Hl.
    apply list_elem_of_lookup_1 in Hl as [j Hj].
    assert ((key_at h0 <$> incoming) !! j = Some (key_at h0 l)) as Hkj
      by (by rewrite list_lookup_fmap, Hj).
    rewrite Hinc, list_lookup_fmap in Hkj.
    destruct (parsed !! j) as [r|] eqn:Hr; [|done]. injection Hkj as Hkj.
    unfold is_new. rewrite <-Hkj. simpl. apply bool_decide_pack.
    apply Hfresh. by eapply list_elem_of_lookup_2. }
  do 2 f_equal. destruct project as [n d f]. simpl in *.
  apply foldl_add_reference_fresh; [|done..].
  intros j r Hj. unfold h0. by rewrite lookup_alloc.
Qed.

Lemma import_bibtex_fresh_keys_witness :
  import_bibtex Some two_entry_fs [] (Some (mkProject "p" [] None)) "refs.bib"
  = Ok ([0; 1], two_entry_heap, two_entry_project).
Proof.
  apply (import_bibtex_fresh_keys Some two_entry_fs [] (mkProject "p" [] None)
           "refs.bib" two_entry_heap).
  - split; [by_decide|]. by intros k l.
  - constructor.
  - reflexivity.
  - by_decide.
  - intros r _. apply not_elem_of_nil.
Defined.

(** ** Attaching a document *)

(** X12. A successful attach finds the reference under the given key,
    gives it the path of the copy, the standardized file name inside the
    project directory, and changes no key: a project whose dictionary
    binds every key to a reference of that key stays so. *)
Theorem attach_file_keeps_keys (base_dir : string)
    (path_join : string → string → string) (copy2 : string → string → bool)
    (h : heap) (project : Project) (k src : string) (h' : heap) :
  attach_file base_dir path_join copy2 h (Some project) k src = Ok h' →
  (∃ l r, get_reference project k = Some l ∧ h !! l = Some r ∧
     h' !! l =
       Some (set_file_path
               (Some (path_join (path_join base_dir (name project))
                                (get_standardized_filename r))) r)) ∧
  (∀ l, key_at h' l = key_at h l) ∧
  (project_keyed h project → project_keyed h' project).
Proof.
  unfold attach_file, add_reference_file.
  destruct (get_reference project k) as [l|] eqn:Hget; [|done].
  destruct (h !! l) as [r|] eqn:Hr; [|done].
  destruct (copy2 _ _); [|done]. intros [= <-].
  assert (∀ l0, key_at (alter (set_file_path
                   (Some (path_join (get_project_dir base_dir path_join
                                       (name project))
                                    (get_standardized_filename r)))) l h) l0
                = key_at h l0) as Hkeys.
  { intros l0. unfold key_at. rewrite list_lookup_alter.
    case_decide; [subst|done]. by rewrite Hr. }
  split_and!; [|done|].
  - exists l, r. split_and!; [done..|]. by rewrite list_lookup_alter_eq, Hr.
  - intros [Hwf Hk]. split; [done|]. intros k' l' Hk'. rewrite Hkeys.
    by apply Hk.
Qed.

Lemma attach_file_keeps_keys_witness :
  ∃ h',
    attach_file "lib" (λ a b, a +:+ "/" +:+ b) (λ _ _, true)
      [mkReference "a" "article" [("title", "T")] None None]
      (Some (mkProject "p" [("a", 0)] None)) "a" "paper.pdf" = Ok h' ∧
    file_path <$> h' !! 0 = Some (Some "lib/p/Unknown_XXXX_T.pdf") ∧
    key_at h' 0 = Some "a".
Proof.
  eexists. split; [reflexivity|]. split; [reflexivity|].
  destruct (attach_file_keeps_keys "lib" (λ a b, a +:+ "/" +:+ b)
              (λ _ _, true)
              [mkReference "a" "article" [("title", "T")] None None]
              (mkProject "p" [("a", 0)] None) "a" "paper.pdf" _ eq_refl)
    as (_ & Hk & _).
  by rewrite Hk.
Defined.

(** ** Exporting a project *)

Lemma export_entries (h : heap) (d : dict loc) :
  Forall (λ kl, ∃ r, h !! kl.2 = Some r ∧ key r = kl.1 ∧
                     dict_wf (fields r) ∧ unreserved r) d →
  ∃ rs, deref h (dict_values d) = Some rs ∧
    Forall2 (λ kl e,
               dict_get "ID" e = Some kl.1 ∧
               ∃ r, h !! kl.2 = Some r ∧
                    dict_get "ENTRYTYPE" e = Some (entry_type r) ∧
                    ∀ n, n ≠ "ID" → n ≠ "ENTRYTYPE" →
                         dict_get n e = dict_get n (fields r))
            d (entry_of_reference <$> rs).
Proof.
  unfold deref, dict_values.
  induction 1 as [|[k l] d (r & Hr & Hk & Hwf & Hun) _ (rs & Hrs & IH)].
  - exists []. split; [done|constructor].
  - exists (r :: rs). simpl in Hr, Hk. split.
    { apply mapM_Some_2. rewrite fmap_cons.
      constructor; [done|by apply mapM_Some_1]. }
    rewrite fmap_cons. constructor; [|done]. simpl. split.
    + by rewrite entry_of_reference_get, <-Hk.
    + exists r. split_and!; [done| |].
      * by rewrite entry_of_reference_get.
      * intros n H1 H2. rewrite entry_of_reference_get by done.
        destruct (String.eqb_spec n "ID"); [done|].
        by destruct (String.eqb_spec n "ENTRYTYPE").
Qed.

(** X13. Exporting a project whose dictionary binds every key to an
    allocated reference of that key, none with a field named [ID] or
    [ENTRYTYPE], writes one entry per reference, in the order of the
    dictionary: its [ID] is the key, its [ENTRYTYPE] the entry type, and
    its other items are the fields. *)
Theorem export_bibtex_entries {text : Type}
    (dumps : list (dict string) → text) (fs : string → option text)
    (h : heap) (project : Project) (path : string) :
  project_keyed h project →
  allocated h (dict_values (references project)) →
  (∀ l r, l ∈ dict_values (references project) → h !! l = Some r →
          dict_wf (fields r) ∧ unreserved r) →
  ∃ es,
    export_bibtex dumps fs h (Some project) path
      = Ok (fs_write path (dumps es) fs) ∧
    Forall2 (λ kl e,
               dict_get "ID" e = Some kl.1 ∧
               ∃ r, h !! kl.2 = Some r ∧
                    dict_get "ENTRYTYPE" e = Some (entry_type r) ∧
                    ∀ n, n ≠ "ID" → n ≠ "ENTRYTYPE" →
                         dict_get n e = dict_get n (fields r))
            (references project) es.
Proof.
  intros [Hwf Hkeyed] Hal Hfields.
  destruct (export_entries h (references project)) as (rs & Hrs & HF).
  { apply Forall_forall. intros [k l] Hin.
    assert (l ∈ dict_values (references project)) as Hl.
    { apply list_elem_of_fmap. by exists (k, l). }
    destruct (proj1 (Forall_forall _ _) Hal l Hl) as [r Hr].
    pose proof (Hkeyed k l (elem_of_dict_get _ _ _ Hwf Hin)) as Hk.
    unfold key_at in Hk. rewrite Hr in Hk. injection Hk as Hk.
    destruct (Hfields l r Hl Hr). exists r. by split_and!. }
  exists (entry_of_reference <$> rs). split; [|done].
  unfold export_bibtex. by rewrite Hrs.
Qed.

Lemma export_bibtex_entries_witness :
  ∃ es,
    export_bibtex (λ es : list (dict string), es) (λ _, None) two_entry_heap
                  (Some two_entry_project) "out.bib"
      = Ok (fs_write "out.bib" es (λ _, None)) ∧
    length es = 2.
Proof.
  destruct (export_bibtex_entries (λ es : list (dict string), es) (λ _, None)
              two_entry_heap two_entry_project "out.bib")
    as (es & Hex & HF).
  - split; [by_decide|]. intros k l. simpl.
    destruct (String.eqb_spec k "a") as [->|?]; [by intros [= <-]|].
    destruct (String.eqb_spec k "b") as [->|?]; [by intros [= <-]|done].
  - repeat constructor; eauto.
  - intros l r Hl Hr.
    repeat (apply elem_of_cons in Hl as [->|Hl];
            [injection Hr as <-; split; [by_decide|by split]|]).
    by apply elem_of_nil in Hl.
  - exists es. split; [exact Hex|].
    apply Forall2_length in HF. by rewrite <-HF.
Defined.

(** ** Citations of one and of several references *)

(** X14. Citing a list of one reference gives the citation of that
    reference, in every style. *)
Theorem format_multiple_citations_single (r : Reference) (style : string) :
  format_multiple_citations [r] style = format_citation r style.
Proof.
  unfold format_multiple_citations, format_citation. simpl.
  repeat (destruct (String.eqb style _); [done|]). done.
Qed.

(** ** The pieces of the author field *)

Lemma split_go_nonempty sep skip cur s : PyStr.split_go sep skip cur s ≠ [].
Proof.
  revert skip cur. induction s as [|c s IH]; intros skip cur; simpl; [done|].
  destruct skip; [|apply IH]. destruct (PyStr.startswith sep _); [done|apply IH].
Qed.

Lemma contains_split_go sep cur s :
  sep ≠ "" →
  (PyStr.contains sep s = true ↔ 2 ≤ length (PyStr.split_go sep 0 cur s)).
Proof.
  intros Hsep. revert cur. induction s as [|c s IH]; intros cur.
  - destruct sep; [done|]. simpl. split; [done|lia].
  - change (PyStr.contains sep (String c s))
      with (PyStr.startswith sep (String c s) || PyStr.contains sep s).
    change (PyStr.split_go sep 0 cur (String c s))
      with (if PyStr.startswith sep (String c s)
            then cur :: PyStr.split_go sep (String.length sep - 1) "" s
            else PyStr.split_go sep 0 (cur +:+ String c "") s).
    destruct (PyStr.startswith sep (String c s)); simpl.
    + split; [intros _|done].
      pose proof (split_go_nonempty sep (String.length sep - 1) "" s).
      destruct (PyStr.split_go sep (String.length sep - 1) "" s);
        [done|simpl; lia].
    + apply IH.
Qed.

(** X15. The short form is decided by the number of pieces that the bare
    letters [and] cut the author field into: one piece gives the name and
    the year, two give both names joined by [and], three or more give the
    first name and [et al.]; the name of a piece is what precedes its first
    comma, stripped. The list of pieces is never empty. *)
Theorem get_formatted_author_year_by_pieces (r : Reference) :
  let author := dict_get_default "author" "Unknown" (fields r) in
  let year := dict_get_default "year" "n.d." (fields r) in
  ∃ a rest, PyStr.split "and" author = a :: rest ∧
    get_formatted_author_year r =
      match rest with
      | [] => piece_last_name a +:+ " (" +:+ year +:+ ")"
      | [b] =>
          piece_last_name a +:+ " and " +:+ piece_last_name b
            +:+ " (" +:+ year +:+ ")"
      | _ => piece_last_name a +:+ " et al. (" +:+ year +:+ ")"
      end.
Proof.
  intros author year. unfold get_formatted_author_year, last_name_of.
  fold author. fold year.
  pose proof (contains_split_go "and" "" author ltac:(done)) as Hc.
  fold (PyStr.split "and" author) in Hc.
  destruct (PyStr.split "and" author) as [|a rest] eqn:Hs.
  { by apply split_go_nonempty in Hs. }
  exists a, rest. split; [done|].
  destruct (PyStr.contains "and" author).
  - destruct Hc as [Hc _]. specialize (Hc eq_refl).
    destruct rest as [|b [|c rest]]; [simpl in Hc; lia|done|done].
  - destruct rest as [|b rest]; [done|].
    destruct Hc as [_ Hc]. simpl in Hc. discriminate Hc. lia.
Qed.

(** ** The parts of the file name *)

Lemma all_chars_app P a b :
  all_chars P (a +:+ b) = all_chars P a && all_chars P b.
Proof.
  induction a as [|c a IH]; [done|].
  rewrite string_app_cons. simpl. by rewrite IH, andb_assoc.
Qed.

Lemma words_go_all_chars (P : ascii → bool) cur s :
  all_chars P cur = true →
  all_chars (λ c, P c || PyStr.isspace c) s = true →
  Forall (λ w, all_chars P w = true) (PyStr.words_go cur s).
Proof.
  revert cur. induction s as [|c s IH]; intros cur Hcur Hs; simpl.
  - destruct (String.eqb cur ""); by repeat constructor.
  - simpl in Hs. apply andb_prop in Hs as [Hc Hs].
    destruct (PyStr.isspace c) eqn:Hsp.
    + destruct (String.eqb cur ""); [by apply IH|].
      constructor; [done|by apply IH].
    + apply IH; [|done]. rewrite all_chars_app, Hcur. simpl.
      rewrite orb_false_r in Hc. by rewrite Hc.
Qed.

Lemma filter_chars_all_chars keep s :
  all_chars keep (PyStr.filter_chars keep s) = true.
Proof.
  induction s as [|c s IH]; [done|]. simpl.
  destruct (keep c) eqn:Hk; [|done]. simpl. by rewrite Hk.
Qed.

Lemma join_all_chars (P : ascii → bool) sep ws :
  all_chars P sep = true → Forall (λ w, all_chars P w = true) ws →
  all_chars P (PyStr.join sep ws) = true.
Proof.
  intros Hsep. induction 1 as [|w ws Hw Hws IH]; [done|].
  destruct ws as [|w' ws]; [done|].
  change (PyStr.join sep (w :: w' :: ws))
    with (w +:+ sep +:+ PyStr.join sep (w' :: ws)).
  by rewrite !all_chars_app, Hw, Hsep, IH.
Qed.

(** X16. The file name is the last name, the year and a title part,
    joined by underscores and followed by [.pdf]; the title part is made
    of at most three words and holds nothing but alphanumeric characters
    and underscores, whatever the title. The last name and the year are
    used as they are. *)
Theorem get_standardized_filename_title_part (r : Reference) :
  ∃ ws,
    get_standardized_filename r
    = last_name_of (dict_get_default "author" "Unknown" (fields r)) +:+ "_"
      +:+ dict_get_default "year" "XXXX" (fields r) +:+ "_"
      +:+ PyStr.join "_" ws +:+ ".pdf" ∧
    length ws ≤ 3 ∧
    Forall (λ w, all_chars PyStr.isalnum w = true) ws ∧
    all_chars word_char (PyStr.join "_" ws) = true.
Proof.
  unfold get_standardized_filename.
  set (title := dict_get_default "title" "Untitled" (fields r)).
  set (clean := PyStr.filter_chars
                  (λ c, PyStr.isalnum c || PyStr.isspace c) title).
  assert (Forall (λ w, all_chars PyStr.isalnum w = true)
                 (take 3 (PyStr.words clean))) as Hws.
  { apply Forall_take. apply words_go_all_chars; [done|].
    apply filter_chars_all_chars. }
  exists (take 3 (PyStr.words clean)). split_and!; [done| |done|].
  - rewrite length_take. lia.
  - apply join_all_chars; [done|].
    eapply Forall_impl; [exact Hws|]. intros w Hw. clear -Hw.
    induction w as [|c w IH]; [done|]. simpl in *.
    apply andb_prop in Hw as [Hc Hw]. unfold word_char at 1.
    by rewrite Hc, IH.
Qed.

(** X17. Without a title the title part is [Untitled]; with an empty
    title it is empty, and the name ends in an underscore before
    [.pdf]. *)
Theorem get_standardized_filename_no_title (r : Reference) :
  (dict_get "title" (fields r) = None →
   get_standardized_filename r
   = last_name_of (dict_get_default "author" "Unknown" (fields r)) +:+ "_"
     +:+ dict_get_default "year" "XXXX" (fields r) +:+ "_Untitled.pdf") ∧
  (dict_get "title" (fields r) = Some "" →
   get_standardized_filename r
   = last_name_of (dict_get_default "author" "Unknown" (fields r)) +:+ "_"
     +:+ dict_get_default "year" "XXXX" (fields r) +:+ "_.pdf").
Proof.
  unfold get_standardized_filename.
  split; intros Ht; unfold dict_get_default at 3; rewrite Ht; reflexivity.
Qed.

Lemma get_standardized_filename_no_title_witness :
  get_standardized_filename
    (mkReference "k" "article" [("author", "Doe, J."); ("year", "2021")]
                 None None)
  = "Doe_2021_Untitled.pdf".
Proof.
  apply (proj1 (get_standardized_filename_no_title
                  (mkReference "k" "article"
                     [("author", "Doe, J."); ("year", "2021")] None None))).
  reflexivity.
Defined.

(** ** The full citation *)

(** X18. Whatever the entry type, the full citation opens with the
    authors, the year in parentheses and the title, each followed by a
    full stop; for an entry type without a template of its own, compared
    without regard to case, nothing follows. *)
Theorem get_full_citation_opening (clean_latex : string → string)
    (r : Reference) :
  ∃ rest,
    get_full_citation clean_latex r
    = str_replace " and " ", "
        (clean_latex (dict_get_default "author" "Unknown" (fields r)))
      +:+ ". (" +:+ dict_get_default "year" "n.d." (fields r) +:+ "). "
      +:+ clean_latex (dict_get_default "title" "Untitled" (fields r))
      +:+ "." +:+ rest ∧
    (PyStr.lower (entry_type r) ∉ templated_types → rest = "").
Proof.
  unfold get_full_citation, templated_types.
  destruct (String.eqb_spec (PyStr.lower (entry_type r)) "article") as [->|H1].
  { eexists. split; [reflexivity|]. intros H. exfalso. apply H. by_decide. }
  destruct (String.eqb_spec (PyStr.lower (entry_type r)) "book") as [->|H2].
  { eexists. split; [reflexivity|]. intros H. exfalso. apply H. by_decide. }
  destruct (String.eqb_spec (PyStr.lower (entry_type r)) "inproceedings")
    as [->|H3].
  { eexists. split; [reflexivity|]. intros H. exfalso. apply H. by_decide. }
  destruct (String.eqb_spec (PyStr.lower (entry_type r)) "conference")
    as [->|H4].
  { eexists. split; [reflexivity|]. intros H. exfalso. apply H. by_decide. }
  destruct (String.eqb_spec (PyStr.lower (entry_type r)) "techreport")
    as [->|H5].
  { eexists. split; [reflexivity|]. intros H. exfalso. apply H. by_decide. }
  exists "". split; [reflexivity|done].
Qed.

Lemma get_full_citation_opening_witness :
  get_full_citation (λ s, s)
    (mkReference "k" "Misc"
       [("author", "Smith, J. and Doe, A."); ("year", "2020");
        ("title", "On Things")] None None)
  = "Smith, J., Doe, A.. (2020). On Things.".
Proof.
  destruct (get_full_citation_opening (λ s, s)
              (mkReference "k" "Misc"
                 [("author", "Smith, J. and Doe, A."); ("year", "2020");
                  ("title", "On Things")] None None))
    as (rest & Heq & Hrest).
  rewrite Heq, Hrest; [reflexivity|]. by_decide.
Defined.

(** ** Saving and loading a project *)

Lemma json_fields_back (f : dict string) :
  json_fields (JObject ((λ fv, (fv.1, JString fv.2)) <$> f)) = Some f.
Proof.
  unfold json_fields. apply mapM_fmap_Some. by intros [k v].
Qed.

Lemma reference_of_data_back (r : Reference) :
  reference_of_data (reference_data r) = Some r.
Proof.
  destruct r as [k t f o p]. unfold reference_of_data, reference_data. simpl.
  unfold json_string, json_optional. simpl.
  pose proof (json_fields_back f) as Hf. unfold json_fields in Hf.
  rewrite Hf. simpl. by destruct o, p.
Qed.

Lemma project_data_items (h : heap) (d : dict loc) :
  allocated h (dict_values d) →
  ∃ rs, deref h (dict_values d) = Some rs ∧ length rs = length d ∧
    mapM (λ kl, r ← h !! kl.2; Some (kl.1, reference_data r)) d
    = Some (zip_with (λ k r, (k, reference_data r)) (dict_keys d) rs).
Proof.
  unfold deref, dict_values, dict_keys.
  induction d as [|[k l] d IH]; intros Hal.
  - by exists [].
  - rewrite fmap_cons in Hal. apply Forall_cons in Hal as [[r Hr] Hal].
    destruct (IH Hal) as (rs & Hrs & Hlen & Hitems).
    exists (r :: rs). split_and!.
    + apply mapM_Some_2. rewrite fmap_cons.
      constructor; [done|by apply mapM_Some_1].
    + simpl. by rewrite Hlen.
    + apply mapM_Some_2. rewrite fmap_cons. simpl.
      constructor; [simpl in *; by rewrite Hr|by apply mapM_Some_1].
Qed.

Lemma load_references_zip (ks : list string) (rs : list Reference)
    (h : heap) (refs : dict loc) :
  length ks = length rs → NoDup ks → (∀ k, k ∈ ks → k ∉ dict_keys refs) →
  load_references (zip_with (λ k r, (k, reference_data r)) ks rs) h refs
  = Some (h ++ rs, refs ++ zip ks (seq (length h) (length rs))).
Proof.
  revert rs h refs.
  induction ks as [|k ks IH]; intros [|r rs] h refs Hlen Hnd Hfresh;
    try discriminate Hlen.
  - simpl. by rewrite !app_nil_r.
  - injection Hlen as Hlen. apply NoDup_cons in Hnd as [Hk Hnd].
    cbn -[reference_of_data reference_data].
    rewrite reference_of_data_back. simpl.
    rewrite dict_set_absent by (apply Hfresh; left).
    rewrite IH; [|done..|].
    + rewrite length_app. simpl. rewrite Nat.add_1_r.
      by rewrite <-!app_assoc.
    + intros k' Hk'. unfold dict_keys. rewrite fmap_app.
      apply not_elem_of_app. split; [apply Hfresh; by right|].
      simpl. intros Hin. apply list_elem_of_singleton in Hin. by subst.
Qed.

(** X19. A project whose references are allocated can be saved, and
    loading it back from the same place gives a project of the same name
    whose dictionary has the same keys in the same order, each bound to a
    new object equal to the one that was saved; the [file_path] of the
    project itself is not stored. *)
Theorem load_saved_project (base_dir : string)
    (path_join : string → string → string) (disk : string → option json)
    (h : heap) (project : Project) :
  dict_wf (references project) →
  allocated h (dict_values (references project)) →
  ∃ disk' rs,
    save_project base_dir path_join disk h project = Some disk' ∧
    deref h (dict_values (references project)) = Some rs ∧
    load_project base_dir path_join disk' h (name project)
    = Loaded (h ++ rs)
        (mkProject (name project)
           (zip (dict_keys (references project))
                (seq (length h) (length rs))) None).
Proof.
  intros Hwf Hal.
  destruct (project_data_items h (references project) Hal)
    as (rs & Hrs & Hlen & Hitems).
  eexists. exists rs. split_and!; [|done|].
  - unfold save_project, project_data. rewrite Hitems. simpl. reflexivity.
  - unfold load_project, fs_write. rewrite String.eqb_refl.
    unfold json_string. simpl.
    rewrite load_references_zip; [done| |done|].
    + unfold dict_keys. by rewrite length_fmap.
    + intros k _. apply not_elem_of_nil.
Qed.

Lemma load_saved_project_witness :
  ∃ disk',
    save_project "lib" (λ a b, a +:+ "/" +:+ b) (λ _, None) two_entry_heap
                 two_entry_project = Some disk' ∧
    load_project "lib" (λ a b, a +:+ "/" +:+ b) disk' two_entry_heap "p"
    = Loaded (two_entry_heap ++ two_entry_heap)
             (mkProject "p" [("a", 2); ("b", 3)] None).
Proof.
  destruct (load_saved_project "lib" (λ a b, a +:+ "/" +:+ b) (λ _, None)
              two_entry_heap two_entry_project)
    as (disk' & rs & Hsave & Hrs & Hload).
  - by_decide.
  - repeat constructor; eauto.
  - exists disk'. split; [exact Hsave|].
    vm_compute in Hrs. injection Hrs as <-. exact Hload.
Defined.

(** ** Keys without an underscore *)

Lemma underscore_split a a' b b' :
  no_underscore a → no_underscore a' →
  a +:+ "_" +:+ b = a' +:+ "_" +:+ b' → a = a' ∧ b = b'.
Proof.
  unfold no_underscore. revert a'.
  induction a as [|c a IH]; intros [|c' a'] Ha Ha' Heq.
  - change (String "_" b = String "_" b') in Heq. by injection Heq as ->.
  - change (String "_" b = String c' (a' +:+ "_" +:+ b')) in Heq.
    injection Heq as <- _. done.
  - change (String c (a +:+ "_" +:+ b) = String "_" b') in Heq.
    injection Heq as -> _. done.
  - change (String c (a +:+ "_" +:+ b) = String c' (a' +:+ "_" +:+ b'))
      in Heq.
    injection Heq as -> Heq.
    simpl in Ha, Ha'. apply andb_prop in Ha as [_ Ha].
    apply andb_prop in Ha' as [_ Ha'].
    destruct (IH a' Ha Ha' Heq) as [-> ->]. done.
Qed.

Lemma underscore_in_renamed a b : ¬ no_underscore (a +:+ "_" +:+ b).
Proof.
  unfold no_underscore. rewrite all_chars_app. simpl.
  by rewrite andb_false_r.
Qed.

Lemma earlier_injective h refs p q l l' k :
  NoDup refs → refs !! p = Some l → refs !! q = Some l' →
  key_at h l = Some k → key_at h l' = Some k →
  earlier h refs p k = earlier h refs q k → p = q.
Proof.
  intros Hnd Hp Hq Hk Hk' Heq.
  pose proof (group_position h refs p l k Hp Hk) as Hgp.
  pose proof (group_position h refs q l' k Hq Hk') as Hgq.
  rewrite Heq, Hgq in Hgp. injection Hgp as ->.
  by apply (NoDup_lookup refs p q l).
Qed.

(** X20. When no key of a sequence of distinct references holds an
    underscore, one pass of resolution does make the keys pairwise
    distinct. *)
Theorem resolve_duplicate_keys_distinct_without_underscore (h : heap)
    (refs : list loc) :
  NoDup refs → allocated h refs →
  (∀ l k, l ∈ refs → key_at h l = Some k → no_underscore k) →
  ∃ h', resolve_duplicate_keys h refs = Some (refs, h') ∧
        NoDup (key_at h' <$> refs).
Proof.
  intros Hnd Hal Hno.
  destruct (resolve_duplicate_keys_lookup h refs Hnd Hal)
    as (h' & Hres & _ & _ & Hat).
  exists h'. split; [done|].
  assert (∀ p l, refs !! p = Some l →
            ∃ k, key_at h l = Some k ∧ no_underscore k ∧
                 key_at h' l = Some (renamed_key k (earlier h refs p k)))
    as Hpos.
  { intros p l Hp.
    assert (l ∈ refs) as Hl by (by eapply list_elem_of_lookup_2).
    destruct (proj1 (Forall_forall _ _) Hal l Hl) as [r Hr].
    assert (key_at h l = Some (key r)) as Hk by (unfold key_at; by rewrite Hr).
    exists (key r). split_and!; [done|by eapply Hno|].
    unfold key_at. rewrite (Hat p l (key r) Hp Hk), Hr. simpl. f_equal.
    by destruct (earlier h refs p (key r)). }
  apply NoDup_alt. intros p q ok Hp Hq.
  rewrite list_lookup_fmap in Hp, Hq.
  destruct (refs !! p) as [l|] eqn:Hlp; [|done].
  destruct (refs !! q) as [l'|] eqn:Hlq; [|done].
  simpl in Hp, Hq. injection Hp as Hp. injection Hq as Hq.
  destruct (Hpos p l Hlp) as (k & Hk & Hnk & Hk1).
  destruct (Hpos q l' Hlq) as (k' & Hk' & Hnk' & Hk2).
  assert (renamed_key k (earlier h refs p k)
          = renamed_key k' (earlier h refs q k')) as Heq by congruence.
  assert (k = k' ∧ earlier h refs p k = earlier h refs q k') as [<- Hearlier].
  { destruct (earlier h refs p k) as [|i], (earlier h refs q k') as [|j];
      simpl in Heq.
    - done.
    - exfalso. rewrite Heq in Hnk. by apply underscore_in_renamed in Hnk.
    - exfalso. rewrite <-Heq in Hnk'. by apply underscore_in_renamed in Hnk'.
    - destruct (underscore_split _ _ _ _ Hnk Hnk' Heq) as [-> Hij].
      split; [done|]. by apply of_nat_inj. }
  by apply (earlier_injective h refs p q l l' k).
Qed.

Lemma resolve_duplicate_keys_distinct_without_underscore_witness :
  ∃ h', resolve_duplicate_keys [sample "k"; sample "k"; sample "x"] [0; 1; 2]
        = Some ([0; 1; 2], h') ∧
        NoDup (key_at h' <$> [0; 1; 2]).
Proof.
  apply resolve_duplicate_keys_distinct_without_underscore.
  - by_decide.
  - repeat constructor; eauto.
  - intros l k Hl.
    repeat (apply elem_of_cons in Hl as [->|Hl]; [by intros [= <-]|]).
    by apply elem_of_nil in Hl.
Defined.
